(** * simd_example.c: element-wise float addition with AVX / SSE2 / scalar paths

    A shallow embedding of [src/simd_example.c] and the properties its
    description states about it.

    - [float] is IEEE-754 binary32, taken from the Standard Library's
      [SpecFloat] at precision 24 and maximal exponent 128.
    - [size_t] is an unsigned 64-bit integer: a [Z] with the wrap-around
      written out ([wrap]).
    - Memory is a finite map from (block, index) to float cells; a pointer is
      such a pair and [&a[i]] is [a +ₚ i].  [malloc] returns a fresh block
      whose cells hold an indeterminate value ([None]).
    - The C function bodies are programs of a state-and-error monad [M]:
      the state carries the memory, the two output streams and the list of
      memory accesses made so far.  Loops take fuel.
    - The preprocessor conditions of the file are the fields of [build]. *)

From Stdlib Require Import ZArith String Ascii List Lia DecimalString.
From Stdlib Require Import Floats.SpecFloat.
From stdpp Require Import base option list list_numbers gmap strings.

Local Open Scope Z_scope.

(** ** Numbers *)

Definition size_bits : Z := 64.
Definition SIZE_MAX : Z := 2 ^ size_bits - 1.

(** Reduction of an integer to the range of [size_t]. *)
Definition wrap (z : Z) : Z := z mod 2 ^ size_bits.

(** A binary32 value.  [spec_float] has one NaN: the sign and the payload of
    a NaN are not represented. *)
Definition float : Type := spec_float.
Definition sizeof_float : Z := 4.

(** The [+] of C at type [float], and one lane of [_mm256_add_ps] and
    [_mm_add_ps]. *)
Definition fadd (x y : float) : float := SFadd 24 128 x y.

(** The cast [(float)z] of an unsigned integer: round to nearest, ties to
    even. *)
Definition float_of_size_t (z : Z) : float := binary_normalize 24 128 z 0 false.

(** ** Memory *)

Abbreviation block := N (only parsing).
Abbreviation ptr := (N * Z)%type (only parsing).
Abbreviation cell := (option float) (only parsing).
Abbreviation memory := (gmap (N * Z) (option float)) (only parsing).

Definition NULL : ptr := (0%N, 0).

Definition ptr_add (p : ptr) (i : Z) : ptr := (p.1, p.2 + i).
Infix "+ₚ" := ptr_add (at level 50, left associativity).

Definition is_null (p : ptr) : bool := bool_decide (p = NULL).

(** Reading a cell: it must exist and hold a value. *)
Definition mem_load (m : memory) (p : ptr) : option float :=
  match m !! p with
  | Some (Some x) => Some x
  | _ => None
  end.

(** Writing a cell: it must exist. *)
Definition mem_store (m : memory) (p : ptr) (x : float) : option memory :=
  match m !! p with
  | Some _ => Some (<[p := Some x]> m)
  | None => None
  end.

(** [w] consecutive cells from [p] on. *)
Definition mem_load_vec (m : memory) (p : ptr) (w : Z) : option (list float) :=
  mapM (λ k, mem_load m (p +ₚ k)) (seqZ 0 w).

Fixpoint mem_store_vec (m : memory) (p : ptr) (l : list float) : option memory :=
  match l with
  | [] => Some m
  | x :: l' =>
      match mem_store m p x with
      | Some m' => mem_store_vec m' (p +ₚ 1) l'
      | None => None
      end
  end.

(** The cells [p, p + n) exist. *)
Definition allocated (m : memory) (p : ptr) (n : Z) : bool :=
  forallb (λ k, bool_decide (is_Some (m !! (p +ₚ k)))) (seqZ 0 n).

(** The ranges [p, p + n) and [q, q + n) share no cell. *)
Definition separate (p q : ptr) (n : Z) : bool :=
  negb (bool_decide (p.1 = q.1)) || (p.2 + n <=? q.2) || (q.2 + n <=? p.2).

(** ** Program state *)

(** A memory access: the number of lanes (1 for a scalar access) and the
    address of the first one. *)
Inductive event : Type :=
  | EvLoad (lanes : Z) (p : ptr)
  | EvStore (lanes : Z) (p : ptr).

Record state : Type := State {
  mem : memory;
  live : gset N;           (* blocks handed out by malloc and not freed *)
  next_block : N;          (* the next fresh block *)
  oracle : list bool;      (* whether the coming malloc calls succeed *)
  stdout : string;
  stderr : string;
  trace : list event       (* the accesses so far, oldest first *)
}.

Definition set_mem (m : memory) (s : state) : state :=
  State m (live s) (next_block s) (oracle s) (stdout s) (stderr s) (trace s).
Definition log (e : event) (s : state) : state :=
  State (mem s) (live s) (next_block s) (oracle s) (stdout s) (stderr s)
        (trace s ++ [e]).
Definition write_stdout (t : string) (s : state) : state :=
  State (mem s) (live s) (next_block s) (oracle s) (stdout s +:+ t) (stderr s)
        (trace s).
Definition write_stderr (t : string) (s : state) : state :=
  State (mem s) (live s) (next_block s) (oracle s) (stdout s) (stderr s +:+ t)
        (trace s).

Definition init_state (o : list bool) : state :=
  State ∅ ∅ 1%N o "" "" [].

(** ** The monad *)

Inductive error : Type :=
  | OutOfFuel      (* the model ran out of fuel *)
  | Undefined      (* undefined behaviour: an invalid access or free *)
  | IllFormed.     (* the translation unit is rejected by the compiler *)

Inductive result (A : Type) : Type :=
  | Ok (x : A) (s : state)
  | Err (e : error).
Arguments Ok {A} x s.
Arguments Err {A} e.

Definition M (A : Type) : Type := state → result A.

Definition ret {A} (x : A) : M A := λ s, Ok x s.
Definition bind {A B} (m : M A) (k : A → M B) : M B :=
  λ s, match m s with
       | Ok x s' => k x s'
       | Err e => Err e
       end.
Definition raise {A} (e : error) : M A := λ _, Err e.

Notation "'let*' x := m 'in' k" := (bind m (λ x, k))
  (at level 10, x name, m at level 100, k at level 200).

(** A [for (...; cond i; i = next i) body i] loop from [i] on; the
    result is the value of [i] on exit. *)
Fixpoint for_loop (fuel : nat) (cond : Z → bool) (next : Z → Z)
    (body : Z → M unit) (i : Z) : M Z :=
  match fuel with
  | O => raise OutOfFuel
  | S fuel' =>
      if cond i then let* _ := body i in for_loop fuel' cond next body (next i)
      else ret i
  end.

(** ** Memory operations of the program *)

(** [p[0]] as an rvalue. *)
Definition load (p : ptr) : M float :=
  λ s, match mem_load (mem s) p with
       | Some x => Ok x (log (EvLoad 1 p) s)
       | None => Err Undefined
       end.

(** [p[0] = x]. *)
Definition store (p : ptr) (x : float) : M unit :=
  λ s, match mem_store (mem s) p x with
       | Some m => Ok tt (log (EvStore 1 p) (set_mem m s))
       | None => Err Undefined
       end.

Definition vec_load (w : Z) (p : ptr) : M (list float) :=
  λ s, match mem_load_vec (mem s) p w with
       | Some l => Ok l (log (EvLoad w p) s)
       | None => Err Undefined
       end.

Definition vec_store (w : Z) (p : ptr) (l : list float) : M unit :=
  λ s, match mem_store_vec (mem s) p l with
       | Some m => Ok tt (log (EvStore w p) (set_mem m s))
       | None => Err Undefined
       end.

(** The intrinsics of <immintrin.h> and <emmintrin.h>; a [__m256] is a list
    of 8 lanes and a [__m128] one of 4. *)
Definition _mm256_loadu_ps : ptr → M (list float) := vec_load 8.
Definition _mm256_add_ps (va vb : list float) : list float := zip_with fadd va vb.
Definition _mm256_storeu_ps : ptr → list float → M unit := vec_store 8.

Definition _mm_loadu_ps : ptr → M (list float) := vec_load 4.
Definition _mm_add_ps (va vb : list float) : list float := zip_with fadd va vb.
Definition _mm_storeu_ps : ptr → list float → M unit := vec_store 4.

(** ** Standard library of C *)

Definition nl : string := String "010"%char EmptyString.

Definition puts (t : string) : M unit := λ s, Ok tt (write_stdout (t +:+ nl) s).
Definition print_out (t : string) : M unit := λ s, Ok tt (write_stdout t s).
Definition print_err (t : string) : M unit := λ s, Ok tt (write_stderr t s).

(** [malloc]: the oracle says whether the call succeeds (it does when the
    oracle is exhausted).  On success a fresh block of [bytes / 4] float cells,
    none of them initialised. *)
Definition malloc (bytes : Z) : M ptr :=
  λ s, match oracle s with
       | false :: o =>
           Ok NULL (State (mem s) (live s) (next_block s) o
                          (stdout s) (stderr s) (trace s))
       | o =>
           let b := next_block s in
           Ok (b, 0)
              (State (foldr (λ k m, <[(b, k) := None]> m) (mem s)
                            (seqZ 0 (bytes / sizeof_float)))
                     ({[b]} ∪ live s) (N.succ b) (tail o)
                     (stdout s) (stderr s) (trace s))
       end.

(** [free]: nothing for a null pointer; otherwise the pointer must be the
    one malloc returned for a block that is still live. *)
Definition free (p : ptr) : M unit :=
  λ s, if is_null p then Ok tt s
       else if bool_decide (p.1 ∈ live s) && (p.2 =? 0) then
         Ok tt (State (filter (λ kv, kv.1.1 ≠ p.1) (mem s))
                      (live s ∖ {[p.1]}) (next_block s) (oracle s)
                      (stdout s) (stderr s) (trace s))
       else Err Undefined.

(** ** Output formats of printf *)

(** [%zu]. *)
Definition fmt_zu (z : Z) : string := NilZero.string_of_uint (N.to_uint (Z.to_N z)).

(** The decimal digits of [z], padded with zeros on the left to at least
    [width] of them. *)
Definition pad_digits (width : nat) (z : Z) : string :=
  let d := NilZero.string_of_uint (N.to_uint (Z.to_N z)) in
  string_of_list_ascii (repeat "0"%char (width - String.length d)) +:+ d.

(** The integer nearest to [m * 2 ^ e * 10 ^ 6], ties to even. *)
Definition scale_micro (m : positive) (e : Z) : Z :=
  if 0 <=? e then Z.pos m * 2 ^ e * 10 ^ 6
  else
    let num := Z.pos m * 10 ^ 6 in
    let den := 2 ^ (- e) in
    let q := num / den in
    let r := num mod den in
    match 2 * r ?= den with
    | Lt => q
    | Gt => q + 1
    | Eq => if Z.even q then q else q + 1
    end.

(** [%f]: the value with 6 digits after the decimal point. *)
Definition fmt_f (x : float) : string :=
  match x with
  | S754_nan => "nan"
  | S754_infinity s => (if s then "-" else "") +:+ "inf"
  | S754_zero s => (if s then "-" else "") +:+ "0.000000"
  | S754_finite s m e =>
      let q := scale_micro m e in
      (if s then "-" else "") +:+ fmt_zu (q / 10 ^ 6) +:+ "." +:+
      pad_digits 6 (q mod 10 ^ 6)
  end.

(** ** The build *)

(** What the preprocessor sees: whether [__AVX__] and [__SSE2__] are defined,
    and what the identifier [SSE2] stands for.  The file defines no macro
    [SSE2]; [Some t] is a build that defines it (on the command line) as a
    string literal of contents [t], [None] any other build. *)
Record build : Type := Build {
  __AVX__ : bool;
  __SSE2__ : bool;
  SSE2 : option string
}.

(** The preprocessed file is accepted by the compiler. *)
Definition well_formed (cfg : build) : bool :=
  __AVX__ cfg || negb (__SSE2__ cfg) || bool_decide (is_Some (SSE2 cfg)).

(** ** The program *)

(** [c[i] = a[i] + b[i];] *)
Definition add_one (a b c : ptr) (i : Z) : M unit :=
  let* x := load (a +ₚ i) in
  let* y := load (b +ₚ i) in
  store (c +ₚ i) (fadd x y).

Definition add_arrays_simd (cfg : build) (fuel : nat) (a b c : ptr) (n : Z)
    : M unit :=
  if __AVX__ cfg then
    let* _ := puts "AVX is detected." in
    let* i :=
      for_loop fuel (λ i, wrap (i + 8) <=? n) (λ i, wrap (i + 8))
        (λ i,
           let* va := _mm256_loadu_ps (a +ₚ i) in
           let* vb := _mm256_loadu_ps (b +ₚ i) in
           let vc := _mm256_add_ps va vb in
           _mm256_storeu_ps (c +ₚ i) vc)
        0 in
    (* Process remaining elements *)
    let* _ := for_loop fuel (λ i, i <? n) (λ i, wrap (i + 1)) (add_one a b c) i in
    ret tt
  else if __SSE2__ cfg then
    (* puts(SSE2 "is detected."): adjacent string literals are joined; an
       identifier that is not one leaves no valid argument *)
    let* _ :=
      match SSE2 cfg with
      | Some t => puts (t +:+ "is detected.")
      | None => raise IllFormed
      end in
    let* i :=
      for_loop fuel (λ i, wrap (i + 4) <=? n) (λ i, wrap (i + 4))
        (λ i,
           let* va := _mm_loadu_ps (a +ₚ i) in
           let* vb := _mm_loadu_ps (b +ₚ i) in
           let vc := _mm_add_ps va vb in
           _mm_storeu_ps (c +ₚ i) vc)
        0 in
    (* Process remaining elements *)
    let* _ := for_loop fuel (λ i, i <? n) (λ i, wrap (i + 1)) (add_one a b c) i in
    ret tt
  else
    (* Fallback to scalar addition if SIMD is not available *)
    let* _ := puts "no SIMD extension is detected." in
    let* _ := for_loop fuel (λ i, i <? n) (λ i, wrap (i + 1)) (add_one a b c) 0 in
    ret tt.

Definition initialize_arrays (fuel : nat) (a b : ptr) (n : Z) : M unit :=
  let* _ :=
    for_loop fuel (λ i, i <? n) (λ i, wrap (i + 1))
      (λ i,
         let* _ := store (a +ₚ i) (float_of_size_t i) in
         store (b +ₚ i) (float_of_size_t (wrap (n - i))))
      0 in
  ret tt.

(** [main]; the result is the exit status. *)
Definition main (cfg : build) (fuel : nat) : M Z :=
  let n := 1024 in
  let* a := malloc (wrap (n * sizeof_float)) in
  let* b := malloc (wrap (n * sizeof_float)) in
  let* c := malloc (wrap (n * sizeof_float)) in
  if is_null a || is_null b || is_null c then
    let* _ := print_err ("Memory allocation failed" +:+ nl) in
    ret 1
  else
    let* _ := initialize_arrays fuel a b n in
    let* _ := add_arrays_simd cfg fuel a b c n in
    (* Print the first 10 results for verification *)
    let* _ :=
      for_loop fuel (λ i, i <? 10) (λ i, wrap (i + 1))
        (λ i,
           let* x := load (c +ₚ i) in
           print_out ("c[" +:+ fmt_zu i +:+ "] = " +:+ fmt_f x +:+ nl))
        0 in
    let* _ := free a in
    let* _ := free b in
    let* _ := free c in
    ret 0.

(** ** What the program is expected to do, stated on memory and traces *)

(** The cells from [p] on overwritten by the elements of [l]. *)
Fixpoint write_cells (m : memory) (p : ptr) (l : list float) : memory :=
  match l with
  | [] => m
  | x :: l' => write_cells (<[p := Some x]> m) (p +ₚ 1) l'
  end.

(** The accesses of [k] rounds of the chunked loop at [w] lanes. *)
Definition chunk_events (w : Z) (a b c : ptr) (k : Z) : list event :=
  mjoin ((λ j, [EvLoad w (a +ₚ w * j); EvLoad w (b +ₚ w * j);
                EvStore w (c +ₚ w * j)]) <$> seqZ 0 k).

(** The accesses of the element-wise loop over the indices [i, i + k). *)
Definition scalar_events (a b c : ptr) (i k : Z) : list event :=
  mjoin ((λ j, [EvLoad 1 (a +ₚ j); EvLoad 1 (b +ₚ j); EvStore 1 (c +ₚ j)])
           <$> seqZ i k).

(** The number of lanes of the vector loop of a build, if it has one. *)
Definition chunk_size (cfg : build) : option Z :=
  if __AVX__ cfg then Some 8 else if __SSE2__ cfg then Some 4 else None.

(** The line a build prints first. *)
Definition diagnostic (cfg : build) : string :=
  if __AVX__ cfg then "AVX is detected."
  else if __SSE2__ cfg then default "" (SSE2 cfg) +:+ "is detected."
  else "no SIMD extension is detected.".

(** The accesses of [add_arrays_simd]. *)
Definition add_events (cfg : build) (a b c : ptr) (n : Z) : list event :=
  match chunk_size cfg with
  | Some w =>
      chunk_events w a b c (n / w) ++ scalar_events a b c (n / w * w) (n mod w)
  | None => scalar_events a b c 0 n
  end.

(** The memory after [k] rounds of the loop of initialize_arrays. *)
Definition init_mem (m : memory) (a b : ptr) (n k : Z) : memory :=
  foldl (λ m j, <[b +ₚ j := Some (float_of_size_t (n - j))]>
                  (<[a +ₚ j := Some (float_of_size_t j)]> m))
        m (seqZ 0 k).

Definition init_events (a b : ptr) (k : Z) : list event :=
  mjoin ((λ j, [EvStore 1 (a +ₚ j); EvStore 1 (b +ₚ j)]) <$> seqZ 0 k).

(** An access stays inside the first [n] elements of the three arrays. *)
Definition in_range (base : ptr) (n w : Z) (p : ptr) : bool :=
  bool_decide (p.1 = base.1) && (base.2 <=? p.2) && (p.2 + w <=? base.2 + n).

Definition in_bounds (a b c : ptr) (n : Z) (e : event) : bool :=
  match e with
  | EvLoad w p => (0 <? w) && (in_range a n w p || in_range b n w p)
  | EvStore w p => (0 <? w) && in_range c n w p
  end.

(** ** The selection of a strategy, as the description has it *)

Inductive strategy : Type := Wide | Narrow | Scalar.

(** A strict priority chain over what the build advertises: wide first,
    then narrow, then scalar. *)
Definition select_strategy (wide_advertised narrow_advertised : bool) : strategy :=
  if wide_advertised then Wide
  else if narrow_advertised then Narrow
  else Scalar.

(** One algorithm for both vector strategies: print the line, process
    chunks of [w] elements with a bulk add, finish the remainder one element
    at a time. *)
Definition chunked_add (w : Z) (line : M unit) (fuel : nat) (a b c : ptr) (n : Z)
    : M unit :=
  let* _ := line in
  let* i :=
    for_loop fuel (λ i, wrap (i + w) <=? n) (λ i, wrap (i + w))
      (λ i,
         let* x := vec_load w (a +ₚ i) in
         let* y := vec_load w (b +ₚ i) in
         vec_store w (c +ₚ i) (zip_with fadd x y))
      0 in
  let* _ := for_loop fuel (λ i, i <? n) (λ i, wrap (i + 1)) (add_one a b c) i in
  ret tt.

Definition scalar_add (line : M unit) (fuel : nat) (a b c : ptr) (n : Z) : M unit :=
  let* _ := line in
  let* _ := for_loop fuel (λ i, i <? n) (λ i, wrap (i + 1)) (add_one a b c) 0 in
  ret tt.

(** The line of the narrow path, as the source spells its argument. *)
Definition narrow_line (cfg : build) : M unit :=
  match SSE2 cfg with
  | Some t => puts (t +:+ "is detected.")
  | None => raise IllFormed
  end.

Definition run_strategy (st : strategy) (cfg : build) (fuel : nat)
    (a b c : ptr) (n : Z) : M unit :=
  match st with
  | Wide => chunked_add 8 (puts "AVX is detected.") fuel a b c n
  | Narrow => chunked_add 4 (narrow_line cfg) fuel a b c n
  | Scalar => scalar_add (puts "no SIMD extension is detected.") fuel a b c n
  end.

(** None of the first three calls of malloc fails. *)
Definition allocations_succeed (o : list bool) : bool := forallb id (take 3 o).

(** ** Auxiliary notions of the proofs *)

(** The state, from [s0], once the elements of [c] below [i] hold the sums
    of those of [va] and [vb], [out] has been printed and the accesses [evs]
    have been made. *)
Definition state_after (c : ptr) (va vb : list float) (s0 : state)
    (out : string) (i : Z) (evs : list event) : state :=
  State (write_cells (mem s0) c (take (Z.to_nat i) (zip_with fadd va vb)))
        (live s0) (next_block s0) (oracle s0)
        (stdout s0 +:+ out) (stderr s0) (trace s0 ++ evs).

(** [m'] has every cell of [m], and a value in every cell where [m] has
    one: stores only ever lead from [m] to such an [m']. *)
Definition extends (m m' : memory) : Prop :=
  ∀ q, (is_Some (m !! q) → is_Some (m' !! q)) ∧
       (is_Some (mem_load m q) → is_Some (mem_load m' q)).

(** A program that takes fuel gives the same result with more of it. *)
Definition mono {A} (f : nat → M A) : Prop :=
  ∀ fuel fuel' s x s',
    f fuel s = Ok x s' → (fuel ≤ fuel')%nat → f fuel' s = Ok x s'.

(** What main prints after the line of the build. *)
Definition ten_lines : string :=
"c[0] = 1024.000000
c[1] = 1024.000000
c[2] = 1024.000000
c[3] = 1024.000000
c[4] = 1024.000000
c[5] = 1024.000000
c[6] = 1024.000000
c[7] = 1024.000000
c[8] = 1024.000000
c[9] = 1024.000000
".

(** What can be seen of a run: the exit status and the two streams. *)
Definition outcome (r : result Z) : option (Z * string * string) :=
  match r with
  | Ok x s => Some (x, stdout s, stderr s)
  | Err _ => None
  end.

Definition outcome_trace (r : result Z)
    : option (Z * string * string * list event) :=
  match r with
  | Ok x s => Some (x, stdout s, stderr s, trace s)
  | Err _ => None
  end.

(** Equality of floats is decidable. *)
#[global] Instance float_eq_dec : EqDecision spec_float.
Proof. solve_decision. Defined.

(** The value of the cell [p] after a run. *)
Definition cell_after {A} (r : result A) (p : ptr) : option float :=
  match r with
  | Ok _ s => mem_load (mem s) p
  | Err _ => None
  end.

(** ** A small run, used to instantiate the statements below *)

(** Three buffers of 9 floats in blocks 1, 2 and 3, the first two filled by
    [initialize_arrays]. *)
Definition demo_a : ptr := (1%N, 0).
Definition demo_b : ptr := (2%N, 0).
Definition demo_c : ptr := (3%N, 0).

Definition demo_state : state :=
  match (let* a := malloc 36 in
         let* b := malloc 36 in
         let* c := malloc 36 in
         initialize_arrays 10 a b 9) (init_state []) with
  | Ok _ s => s
  | Err _ => init_state []
  end.

Definition demo_va : list float := float_of_size_t <$> seqZ 0 9.
Definition demo_vb : list float := (λ i, float_of_size_t (9 - i)) <$> seqZ 0 9.

Definition AVX_build : build := Build true true None.
Definition SSE2_build : build := Build false true (Some "SSE2 ").
Definition scalar_build : build := Build false false None.

(** ** The function of the README *)

Definition INT_MAX : Z := 2 ^ 31 - 1.

(** [add_vectors] of README.md, with [int i] and [int n]: an [i += 4] that
    would leave the range of [int] is undefined. *)
Definition add_vectors (fuel : nat) (a b c : ptr) (n : Z) : M unit :=
  let* _ :=
    for_loop fuel (λ i, i <? n) (λ i, i + 4)
      (λ i,
         let* va := _mm_loadu_ps (a +ₚ i) in
         let* vb := _mm_loadu_ps (b +ₚ i) in
         let vc := _mm_add_ps va vb in
         let* _ := _mm_storeu_ps (c +ₚ i) vc in
         if INT_MAX <? i + 4 then raise Undefined else ret tt)
      0 in
  ret tt.

(** ** Further notions of the proofs *)

(** The state a run ends in. *)
Definition run_state {A} (r : result A) : state :=
  match r with
  | Ok _ s => s
  | Err _ => init_state []
  end.

(** The value a run returns. *)
Definition value_of {A} (r : result A) : option A :=
  match r with
  | Ok x _ => Some x
  | Err _ => None
  end.

(** The three buffers of main: from the initial state malloc hands out the
    blocks 1, 2 and 3. *)
Definition main_a : ptr := (1%N, 0).
Definition main_b : ptr := (2%N, 0).
Definition main_c : ptr := (3%N, 0).

(** Whether a float is a NaN. *)
Definition is_nan (x : float) : bool :=
  match x with
  | S754_nan => true
  | _ => false
  end.

(** [c] is the array [p] itself or shares no cell with it. *)
Definition in_place_or_apart (c p : ptr) (n : Z) : bool :=
  bool_decide (c = p) || separate c p n.

(** The rounds of the loops of add_arrays_simd on [n] elements. *)
Definition rounds (cfg : build) (n : Z) : Z :=
  match chunk_size cfg with
  | Some w => n / w + n mod w
  | None => n
  end.

(** How many of the three calls of malloc in main succeed: a call
    succeeds unless the oracle says [false]. *)
Definition successes (o : list bool) : nat :=
  length (filter (λ ok : bool, ok = true) (take 3 (o ++ [true; true; true]))).

(** What is left allocated after a run: the number of cells and the number
    of live blocks. *)
Definition leftover (r : result Z) : option (nat * nat) :=
  match r with
  | Ok _ s => Some (size (mem s), size (live s))
  | Err _ => None
  end.

(** * Proofs *)

(** ** The formats, on a few values *)

Example fmt_f_integer : fmt_f (float_of_size_t 1024) = "1024.000000".
Proof. reflexivity. Qed.

Example fmt_f_fraction : fmt_f (binary_normalize 24 128 5 (-3) false) = "0.625000".
Proof. reflexivity. Qed.

Example fmt_f_rounds : fmt_f (binary_normalize 24 128 1 (-20) false) = "0.000001".
Proof. reflexivity. Qed.

Example float_of_size_t_rounds :
  float_of_size_t 16777217 = float_of_size_t 16777216.
Proof. reflexivity. Qed.

(** ** The monad and the loop *)

Lemma bind_Ok {A B} (m : M A) (k : A → M B) s x s' :
  m s = Ok x s' → bind m k s = k x s'.
Proof. unfold bind. intros ->. reflexivity. Qed.

Lemma bind_Ok_inv {A B} (m : M A) (k : A → M B) s y s'' :
  bind m k s = Ok y s'' → ∃ x s', m s = Ok x s' ∧ k x s' = Ok y s''.
Proof. unfold bind. destruct (m s) as [x s'|e]; [eauto | discriminate]. Qed.

(** A loop whose body keeps an invariant [I] and decreases a measure [μ]
    runs to its exit, given more fuel than the measure. *)
Lemma for_loop_rule (I : Z → state → Prop) (μ : Z → nat) cond next body :
  (∀ i s, I i s → cond i = true →
     ∃ s', body i s = Ok tt s' ∧ I (next i) s' ∧ (μ (next i) < μ i)%nat) →
  ∀ fuel i s, I i s → (μ i < fuel)%nat →
  ∃ j s', for_loop fuel cond next body i s = Ok j s' ∧ I j s' ∧ cond j = false.
Proof.
  intros Hstep fuel. induction fuel as [|fuel IH]; intros i s HI Hfuel; [lia|].
  simpl. destruct (cond i) eqn:Hc.
  - destruct (Hstep i s HI Hc) as (s' & Hb & HI' & Hμ).
    rewrite (bind_Ok _ _ _ _ _ Hb). apply IH; [done | lia].
  - exists i, s. done.
Qed.

(** More fuel does not change a result. *)
Lemma for_loop_fuel_mono cond next body fuel fuel' i s j s' :
  for_loop fuel cond next body i s = Ok j s' → (fuel ≤ fuel')%nat →
  for_loop fuel' cond next body i s = Ok j s'.
Proof.
  revert fuel' i s. induction fuel as [|fuel IH]; intros fuel' i s H Hle.
  - discriminate.
  - destruct fuel' as [|fuel']; [lia|]. simpl in *.
    destruct (cond i); [|done].
    apply bind_Ok_inv in H as (x & s1 & Hb & H).
    rewrite (bind_Ok _ _ _ _ _ Hb). apply IH; [done | lia].
Qed.

(** ** Memory *)

Lemma ptr_add_0 p : p +ₚ 0 = p.
Proof. destruct p. unfold ptr_add. simpl. f_equal. lia. Qed.

Lemma ptr_add_add p i j : p +ₚ i +ₚ j = p +ₚ (i + j).
Proof. unfold ptr_add. simpl. f_equal. lia. Qed.

Lemma write_cells_lookup_out m p l q :
  q.1 ≠ p.1 ∨ q.2 < p.2 ∨ p.2 + Z.of_nat (length l) ≤ q.2 →
  write_cells m p l !! q = m !! q.
Proof.
  revert m p. induction l as [|x l IH]; intros m p H; [done|].
  simpl in *. rewrite IH.
  - apply lookup_insert_ne. destruct p, q. simpl in *. intros [= -> ->]. lia.
  - unfold ptr_add. simpl. lia.
Qed.

Lemma write_cells_lookup_in m p l i x :
  l !! i = Some x → write_cells m p l !! (p +ₚ Z.of_nat i) = Some (Some x).
Proof.
  revert m p i. induction l as [|y l IH]; intros m p i H; [done|].
  destruct i as [|i]; cbn [write_cells].
  - injection H as ->. change (Z.of_nat 0) with 0.
    rewrite ptr_add_0, write_cells_lookup_out.
    + apply lookup_insert_eq.
    + unfold ptr_add. simpl. lia.
  - replace (p +ₚ Z.of_nat (S i)) with (p +ₚ 1 +ₚ Z.of_nat i)
      by (rewrite ptr_add_add; f_equal; lia).
    by apply IH.
Qed.

Lemma write_cells_app m p l1 l2 :
  write_cells m p (l1 ++ l2)
  = write_cells (write_cells m p l1) (p +ₚ Z.of_nat (length l1)) l2.
Proof.
  revert m p. induction l1 as [|x l1 IH]; intros m p; simpl.
  - by rewrite ptr_add_0.
  - rewrite IH, ptr_add_add. do 2 f_equal. lia.
Qed.

Lemma allocated_spec m p n :
  allocated m p n = true ↔ ∀ k, 0 ≤ k < n → is_Some (m !! (p +ₚ k)).
Proof.
  unfold allocated. rewrite forallb_forall. split.
  - intros H k Hk. eapply bool_decide_eq_true_1, H, list_elem_of_In, elem_of_seqZ. lia.
  - intros H k Hk%list_elem_of_In%elem_of_seqZ. apply bool_decide_eq_true_2, H. lia.
Qed.

Lemma mem_store_vec_Some m p l :
  allocated m p (Z.of_nat (length l)) = true →
  mem_store_vec m p l = Some (write_cells m p l).
Proof.
  revert m p. induction l as [|x l IH]; intros m p H; [done|].
  rewrite allocated_spec in H. simpl. unfold mem_store.
  destruct (H 0) as [v Hv]; [simpl; lia|]. rewrite ptr_add_0 in Hv. rewrite Hv.
  apply IH, allocated_spec. intros k Hk. rewrite ptr_add_add.
  destruct (decide (p = p +ₚ (1 + k))) as [<-|Hne].
  - rewrite lookup_insert_eq. eauto.
  - rewrite lookup_insert_ne by done. apply H. simpl. lia.
Qed.

Lemma mem_load_vec_spec m p n l :
  mem_load_vec m p n = Some l ↔
  length l = Z.to_nat n ∧
  ∀ i x, l !! i = Some x → mem_load m (p +ₚ Z.of_nat i) = Some x.
Proof.
  unfold mem_load_vec. rewrite mapM_Some. split.
  - intros H. split.
    + apply Forall2_length in H. rewrite length_seqZ in H. done.
    + intros i x Hx.
      destruct (Forall2_lookup_r _ _ _ _ _ H Hx) as (k & Hk & Hl).
      apply lookup_seqZ in Hk as [-> _]. done.
  - intros [Hlen H]. apply Forall2_same_length_lookup. split.
    + by rewrite length_seqZ.
    + intros i k x Hk Hx. apply lookup_seqZ in Hk as [-> _]. by apply H.
Qed.

Lemma separate_spec p q n :
  separate p q n = true ↔ p.1 ≠ q.1 ∨ p.2 + n ≤ q.2 ∨ q.2 + n ≤ p.2.
Proof.
  unfold separate. rewrite !orb_true_iff, negb_true_iff, bool_decide_eq_false.
  rewrite !Z.leb_le. tauto.
Qed.

Lemma write_cells_is_Some m p l q :
  is_Some (m !! q) → is_Some (write_cells m p l !! q).
Proof.
  revert m p. induction l as [|x l IH]; intros m p H; [done|].
  simpl. apply IH. rewrite lookup_insert_is_Some.
  destruct (decide (p = q)); auto.
Qed.

Lemma load_Ok p s x :
  mem_load (mem s) p = Some x → load p s = Ok x (log (EvLoad 1 p) s).
Proof. unfold load. by intros ->. Qed.

Lemma store_Ok p x s :
  is_Some (mem s !! p) →
  store p x s = Ok tt (log (EvStore 1 p) (set_mem (<[p := Some x]> (mem s)) s)).
Proof. unfold store, mem_store. by intros [v ->]. Qed.

Lemma vec_load_Ok w p s l :
  mem_load_vec (mem s) p w = Some l → vec_load w p s = Ok l (log (EvLoad w p) s).
Proof. unfold vec_load. by intros ->. Qed.

Lemma vec_store_Ok w p l s :
  allocated (mem s) p (Z.of_nat (length l)) = true →
  vec_store w p l s
  = Ok tt (log (EvStore w p) (set_mem (write_cells (mem s) p l) s)).
Proof. unfold vec_store. intros H. by rewrite mem_store_vec_Some. Qed.

Lemma wrap_small z : 0 ≤ z < 2 ^ size_bits → wrap z = z.
Proof. apply Z.mod_small. Qed.

Lemma seqZ_1 m : seqZ m 1 = [m].
Proof. rewrite seqZ_cons by lia. by rewrite seqZ_nil by lia. Qed.

Lemma chunk_events_succ w a b c k :
  0 ≤ k →
  chunk_events w a b c (k + 1)
  = chunk_events w a b c k
    ++ [EvLoad w (a +ₚ w * k); EvLoad w (b +ₚ w * k); EvStore w (c +ₚ w * k)].
Proof.
  intros Hk. unfold chunk_events.
  by rewrite seqZ_app, fmap_app, join_app, seqZ_1 by lia.
Qed.

Lemma scalar_events_succ a b c i k :
  0 ≤ k →
  scalar_events a b c i (k + 1)
  = scalar_events a b c i k
    ++ [EvLoad 1 (a +ₚ (i + k)); EvLoad 1 (b +ₚ (i + k)); EvStore 1 (c +ₚ (i + k))].
Proof.
  intros Hk. unfold scalar_events.
  by rewrite seqZ_app, fmap_app, join_app, seqZ_1 by lia.
Qed.

(** ** The loops of add_arrays_simd *)

Section add_arrays.
Variables (a b c : ptr) (n : Z) (va vb : list float) (s0 : state).
Hypothesis Hn : 0 ≤ n.
Hypothesis Hsize : sizeof_float * n ≤ SIZE_MAX.
Hypothesis Ha : mem_load_vec (mem s0) a n = Some va.
Hypothesis Hb : mem_load_vec (mem s0) b n = Some vb.
Hypothesis Hc : allocated (mem s0) c n = true.
Hypothesis Hca : separate c a n = true.
Hypothesis Hcb : separate c b n = true.

Local Abbreviation sums := (zip_with fadd va vb).

Local Abbreviation after := (state_after c va vb s0).

Lemma length_va : length va = Z.to_nat n.
Proof using Ha. by apply mem_load_vec_spec in Ha as [? _]. Qed.

Lemma length_vb : length vb = Z.to_nat n.
Proof using Hb. by apply mem_load_vec_spec in Hb as [? _]. Qed.

Lemma length_sums : length sums = Z.to_nat n.
Proof using Ha Hb. rewrite length_zip_with, length_va, length_vb. lia. Qed.

(** The inputs are read unchanged while [c] is being filled. *)
Lemma load_through (p : ptr) (v : list float) (i w : Z) (k : nat) :
  mem_load_vec (mem s0) p n = Some v → separate c p n = true →
  0 ≤ i → 0 ≤ w → i + w ≤ n →
  mem_load_vec (write_cells (mem s0) c (take k sums)) (p +ₚ i) w
  = Some (take (Z.to_nat w) (drop (Z.to_nat i) v)).
Proof using Ha Hb.
  intros Hv Hsep Hi Hw Hiw. apply mem_load_vec_spec in Hv as [Hlen Hv].
  apply separate_spec in Hsep. apply mem_load_vec_spec. split.
  - rewrite length_take, length_drop. lia.
  - intros j x [Hx Hj]%lookup_take_Some. rewrite lookup_drop in Hx.
    apply Hv in Hx. unfold mem_load in *.
    rewrite write_cells_lookup_out, ptr_add_add.
    + by replace (i + Z.of_nat j) with (Z.of_nat (Z.to_nat i + j)) by lia.
    + pose proof (length_take_le' := length_take sums k).
      pose proof length_sums. unfold ptr_add. simpl. lia.
Qed.

Lemma alloc_through (l : list float) (i w : Z) :
  0 ≤ i → i + w ≤ n →
  allocated (write_cells (mem s0) c l) (c +ₚ i) w = true.
Proof using Hc.
  intros Hi Hiw. apply allocated_spec. intros k Hk.
  apply write_cells_is_Some. rewrite ptr_add_add.
  rewrite allocated_spec in Hc. apply Hc. lia.
Qed.

Lemma take_sums_chunk (i w : Z) :
  0 ≤ i → 0 ≤ w →
  take (Z.to_nat (i + w)) sums
  = take (Z.to_nat i) sums
    ++ zip_with fadd (take (Z.to_nat w) (drop (Z.to_nat i) va))
                     (take (Z.to_nat w) (drop (Z.to_nat i) vb)).
Proof.
  intros Hi Hw. rewrite <- zip_with_take, <- zip_with_drop, take_take_drop.
  f_equal. lia.
Qed.

(** One round of the chunked loop at [w] lanes. *)
Lemma chunk_step (w k : Z) (out : string) (evs : list event) :
  0 < w → 0 ≤ k → w * k + w ≤ n →
  (let* x := vec_load w (a +ₚ w * k) in
   let* y := vec_load w (b +ₚ w * k) in
   vec_store w (c +ₚ w * k) (zip_with fadd x y)) (after out (w * k) evs)
  = Ok tt (after out (w * k + w)
             (evs ++ [EvLoad w (a +ₚ w * k); EvLoad w (b +ₚ w * k);
                      EvStore w (c +ₚ w * k)])).
Proof using All.
  intros Hw Hk Hkw.
  erewrite bind_Ok; [|apply vec_load_Ok, (load_through a va); [done..|nia|lia|lia]].
  erewrite bind_Ok; [|apply vec_load_Ok, (load_through b vb); [done..|nia|lia|lia]].
  rewrite vec_store_Ok.
  - unfold log, set_mem, state_after. cbn [mem live next_block oracle stdout stderr trace].
    f_equal. f_equal.
    + rewrite take_sums_chunk, write_cells_app by nia. f_equal.
      rewrite length_take_le by (rewrite length_sums; nia).
      f_equal. nia.
    + by rewrite <- !app_assoc.
  - cbn [log mem state_after]. apply alloc_through; [nia|].
    rewrite length_zip_with, !length_take, !length_drop, length_va, length_vb. nia.
Qed.

Lemma load_cell_through (p : ptr) (v : list float) (i : Z) (k : nat) x :
  mem_load_vec (mem s0) p n = Some v → separate c p n = true →
  0 ≤ i → v !! Z.to_nat i = Some x →
  mem_load (write_cells (mem s0) c (take k sums)) (p +ₚ i) = Some x.
Proof using Ha Hb.
  intros Hv Hsep Hi Hx. apply mem_load_vec_spec in Hv as [Hlen Hv].
  apply separate_spec in Hsep. pose proof (lookup_lt_Some _ _ _ Hx) as Hlt.
  apply Hv in Hx. rewrite Z2Nat.id in Hx by done.
  unfold mem_load in *. rewrite write_cells_lookup_out; [done|].
  pose proof (length_take sums k). pose proof length_sums.
  unfold ptr_add. simpl. lia.
Qed.

(** One round of an element-wise loop. *)
Lemma scalar_step (i : Z) (out : string) (evs : list event) :
  0 ≤ i < n →
  add_one a b c i (after out i evs)
  = Ok tt (after out (i + 1)
             (evs ++ [EvLoad 1 (a +ₚ i); EvLoad 1 (b +ₚ i); EvStore 1 (c +ₚ i)])).
Proof using All.
  intros Hi. unfold add_one.
  destruct (lookup_lt_is_Some_2 va (Z.to_nat i)) as [x Hx];
    [rewrite length_va; lia|].
  destruct (lookup_lt_is_Some_2 vb (Z.to_nat i)) as [y Hy];
    [rewrite length_vb; lia|].
  erewrite bind_Ok; [|apply load_Ok, (load_cell_through a va); [done|done|lia|done]].
  erewrite bind_Ok; [|apply load_Ok, (load_cell_through b vb); [done|done|lia|done]].
  rewrite store_Ok.
  - unfold log, set_mem, state_after.
    cbn [mem live next_block oracle stdout stderr trace].
    f_equal. f_equal.
    + replace (Z.to_nat (i + 1)) with (S (Z.to_nat i)) by lia.
      rewrite (take_S_r _ _ (fadd x y)), write_cells_app.
      * rewrite length_take_le by (rewrite length_sums; lia).
        simpl. by rewrite Z2Nat.id by lia.
      * apply lookup_zip_with_Some. eauto.
    + by rewrite <- !app_assoc.
  - cbn [log mem state_after]. apply write_cells_is_Some.
    rewrite allocated_spec in Hc. apply Hc. lia.
Qed.

Lemma size_bound : n + 8 < 2 ^ size_bits.
Proof using Hn Hsize.
  unfold sizeof_float, SIZE_MAX, size_bits in *.
  change (2 ^ 64) with 18446744073709551616 in *. lia.
Qed.

(** The chunked loop at [w] lanes does [n / w] rounds. *)
Lemma chunk_loop (w : Z) (fuel : nat) (out : string) :
  0 < w ≤ 8 → (Z.to_nat n < fuel)%nat →
  for_loop fuel (λ i, wrap (i + w) <=? n) (λ i, wrap (i + w))
    (λ i,
       let* x := vec_load w (a +ₚ i) in
       let* y := vec_load w (b +ₚ i) in
       vec_store w (c +ₚ i) (zip_with fadd x y))
    0 (after out 0 [])
  = Ok (n / w * w)
       (after out (n / w * w) (chunk_events w a b c (n / w))).
Proof using All.
  intros Hw Hfuel. pose proof size_bound as Hb8.
  destruct (for_loop_rule
    (λ i s, ∃ k, 0 ≤ k ∧ i = w * k ∧ w * k ≤ n ∧
                 s = after out (w * k) (chunk_events w a b c k))
    (λ i, Z.to_nat (n - i))
    (λ i, wrap (i + w) <=? n) (λ i, wrap (i + w))
    (λ i,
       let* x := vec_load w (a +ₚ i) in
       let* y := vec_load w (b +ₚ i) in
       vec_store w (c +ₚ i) (zip_with fadd x y)))
    with (fuel := fuel) (i := 0) (s := after out 0 [])
    as (j & s' & Hrun & (k & Hk & -> & Hkn & ->) & Hexit).
  - intros i s (k & Hk & -> & Hkn & ->) Hcond.
    rewrite wrap_small in * by nia. apply Z.leb_le in Hcond.
    eexists. split; [by apply chunk_step; lia|]. split; [|lia].
    exists (k + 1). rewrite chunk_events_succ by done.
    repeat split; [lia..|]. f_equal. lia.
  - exists 0. rewrite Z.mul_0_r. repeat split; lia.
  - lia.
  - rewrite wrap_small in Hexit by nia. apply Z.leb_gt in Hexit.
    assert (k = n / w) as -> by (apply Z.div_unique with (n - w * k); lia).
    rewrite Hrun. by rewrite (Z.mul_comm w).
Qed.

(** The element-wise loop from [i0] on runs up to [n]. *)
Lemma scalar_loop (fuel : nat) (out : string) (i0 : Z) (evs : list event) :
  0 ≤ i0 ≤ n → (Z.to_nat n < fuel)%nat →
  for_loop fuel (λ i, i <? n) (λ i, wrap (i + 1)) (add_one a b c)
    i0 (after out i0 evs)
  = Ok n (after out n (evs ++ scalar_events a b c i0 (n - i0))).
Proof using All.
  intros Hi0 Hfuel. pose proof size_bound as Hb8.
  destruct (for_loop_rule
    (λ i s, i0 ≤ i ≤ n ∧
            s = after out i (evs ++ scalar_events a b c i0 (i - i0)))
    (λ i, Z.to_nat (n - i))
    (λ i, i <? n) (λ i, wrap (i + 1)) (add_one a b c))
    with (fuel := fuel) (i := i0) (s := after out i0 evs)
    as (j & s' & Hrun & (Hj & ->) & Hexit).
  - intros i s (Hi & ->) Hcond. apply Z.ltb_lt in Hcond.
    rewrite wrap_small by lia.
    eexists. split; [by apply scalar_step; lia|]. split; [|lia].
    split; [lia|]. f_equal.
    replace (i + 1 - i0) with (i - i0 + 1) by lia.
    rewrite scalar_events_succ, <- app_assoc by lia.
    by replace (i0 + (i - i0)) with i by lia.
  - split; [lia|]. rewrite Z.sub_diag. unfold scalar_events.
    rewrite seqZ_nil by lia. simpl. by rewrite app_nil_r.
  - lia.
  - apply Z.ltb_ge in Hexit. assert (j = n) as -> by lia. done.
Qed.

Lemma puts_after (t : string) :
  puts t s0 = Ok tt (after (t +:+ nl) 0 []).
Proof.
  unfold puts, write_stdout, state_after. simpl. by rewrite app_nil_r.
Qed.

(** What add_arrays_simd does, for every build that compiles: it prints
    the line of the build, fills [c] with the sums and makes the accesses
    [add_events]. *)
Lemma add_arrays_simd_spec (cfg : build) (fuel : nat) :
  well_formed cfg = true → (Z.to_nat n < fuel)%nat →
  add_arrays_simd cfg fuel a b c n s0
  = Ok tt (after (diagnostic cfg +:+ nl) n (add_events cfg a b c n)).
Proof using All.
  intros Hwf Hfuel. unfold add_arrays_simd, well_formed, diagnostic, add_events,
    chunk_size in *.
  assert (∀ w, 0 < w → n - n / w * w = n mod w) as Hmod
    by (intros w Hw; rewrite Z.mod_eq by lia; lia).
  destruct (__AVX__ cfg); [|destruct (__SSE2__ cfg)].
  - erewrite bind_Ok by apply puts_after.
    erewrite bind_Ok by (apply (chunk_loop 8); [lia|done]).
    erewrite bind_Ok.
    2:{ apply scalar_loop; [|done].
        pose proof (Z.mul_div_le n 8). pose proof (Z.div_pos n 8). lia. }
    unfold ret. by rewrite Hmod.
  - destruct (SSE2 cfg) as [t|]; [|done].
    erewrite bind_Ok by apply puts_after.
    erewrite bind_Ok by (apply (chunk_loop 4); [lia|done]).
    erewrite bind_Ok.
    2:{ apply scalar_loop; [|done].
        pose proof (Z.mul_div_le n 4). pose proof (Z.div_pos n 4). lia. }
    unfold ret. by rewrite Hmod.
  - erewrite bind_Ok by apply puts_after.
    erewrite bind_Ok by (apply scalar_loop; [lia|done]).
    unfold ret. simpl. by rewrite Z.sub_0_r.
Qed.
End add_arrays.

(** ** The loop of initialize_arrays *)

Lemma init_mem_succ m a b n k :
  0 ≤ k →
  init_mem m a b n (k + 1)
  = <[b +ₚ k := Some (float_of_size_t (n - k))]>
      (<[a +ₚ k := Some (float_of_size_t k)]> (init_mem m a b n k)).
Proof.
  intros Hk. unfold init_mem. by rewrite seqZ_app, foldl_app, seqZ_1 by lia.
Qed.

Lemma init_events_succ a b k :
  0 ≤ k →
  init_events a b (k + 1)
  = init_events a b k ++ [EvStore 1 (a +ₚ k); EvStore 1 (b +ₚ k)].
Proof.
  intros Hk. unfold init_events.
  by rewrite seqZ_app, fmap_app, join_app, seqZ_1 by lia.
Qed.

Lemma init_mem_is_Some m a b n k q :
  0 ≤ k → is_Some (m !! q) → is_Some (init_mem m a b n k !! q).
Proof.
  intros Hk Hq. pattern k. apply natlike_ind; [| |done].
  - done.
  - clear k Hk. intros k Hk IH. unfold Z.succ. rewrite init_mem_succ by done.
    rewrite !lookup_insert_is_Some.
    destruct (decide (b +ₚ k = q)); [by left|right].
    split; [done|]. destruct (decide (a +ₚ k = q)); [by left|by right].
Qed.

Lemma ptr_add_inj p i j : p +ₚ i = p +ₚ j → i = j.
Proof. unfold ptr_add. intros [=]. lia. Qed.

Lemma separate_ne p q n i j :
  separate p q n = true → 0 ≤ i < n → 0 ≤ j < n → p +ₚ i ≠ q +ₚ j.
Proof.
  intros Hsep%separate_spec Hi Hj. unfold ptr_add. intros [= H1 H2]. lia.
Qed.

(** With [a] and [b] apart, the cells below [k] hold the pattern. *)
Lemma init_mem_lookup m a b n k :
  separate a b n = true → 0 ≤ k ≤ n →
  ∀ j, 0 ≤ j < k →
    init_mem m a b n k !! (a +ₚ j) = Some (Some (float_of_size_t j)) ∧
    init_mem m a b n k !! (b +ₚ j) = Some (Some (float_of_size_t (n - j))).
Proof.
  intros Hsep [Hk Hkn]. revert Hkn. pattern k. apply natlike_ind; [| |done].
  - intros _ j Hj. lia.
  - clear k Hk. intros k Hk IH Hkn j Hj. unfold Z.succ.
    rewrite init_mem_succ by done.
    destruct (decide (j = k)) as [->|Hne].
    + split.
      * rewrite lookup_insert_ne by (apply not_eq_sym, separate_ne with n; [done|lia..]).
        apply lookup_insert_eq.
      * apply lookup_insert_eq.
    + destruct (IH ltac:(lia) j ltac:(lia)) as [IHa IHb]. split.
      * rewrite lookup_insert_ne by (apply not_eq_sym, separate_ne with n; [done|lia..]).
        rewrite lookup_insert_ne by (intros ?%ptr_add_inj; lia). done.
      * rewrite lookup_insert_ne by (intros ?%ptr_add_inj; lia).
        rewrite lookup_insert_ne by (apply separate_ne with n; [done|lia..]). done.
Qed.

(** What initialize_arrays does. *)
Lemma initialize_arrays_spec (fuel : nat) (a b : ptr) (n : Z) (s : state) :
  0 ≤ n ≤ SIZE_MAX →
  allocated (mem s) a n = true → allocated (mem s) b n = true →
  (Z.to_nat n < fuel)%nat →
  initialize_arrays fuel a b n s
  = Ok tt (State (init_mem (mem s) a b n n) (live s) (next_block s) (oracle s)
                 (stdout s) (stderr s) (trace s ++ init_events a b n)).
Proof.
  intros Hn Ha Hb Hfuel. unfold initialize_arrays.
  rewrite allocated_spec in Ha, Hb.
  assert (SIZE_MAX < 2 ^ size_bits) as Hmax by (unfold SIZE_MAX; lia).
  destruct (for_loop_rule
    (λ i s', 0 ≤ i ≤ n ∧
       s' = State (init_mem (mem s) a b n i) (live s) (next_block s) (oracle s)
                  (stdout s) (stderr s) (trace s ++ init_events a b i))
    (λ i, Z.to_nat (n - i))
    (λ i, i <? n) (λ i, wrap (i + 1))
    (λ i, let* _ := store (a +ₚ i) (float_of_size_t i) in
          store (b +ₚ i) (float_of_size_t (wrap (n - i)))))
    with (fuel := fuel) (i := 0) (s := s)
    as (j & s' & Hrun & (Hj & ->) & Hexit).
  - intros i s' (Hi & ->) Hcond. apply Z.ltb_lt in Hcond.
    rewrite !wrap_small by lia. eexists. split; [|split; [|lia]].
    + erewrite bind_Ok by (apply store_Ok, init_mem_is_Some; [lia|apply Ha; lia]).
      apply store_Ok. cbn [log set_mem mem]. rewrite lookup_insert_is_Some.
      destruct (decide (a +ₚ i = b +ₚ i)); [by left|right].
      split; [done|]. apply init_mem_is_Some; [lia|apply Hb; lia].
    + split; [lia|]. unfold log, set_mem.
      cbn [mem live next_block oracle stdout stderr trace].
      rewrite init_mem_succ, init_events_succ by lia.
      by rewrite <- !app_assoc.
  - split; [lia|]. destruct s. unfold init_mem, init_events.
    rewrite !seqZ_nil by lia. simpl. by rewrite app_nil_r.
  - lia.
  - apply Z.ltb_ge in Hexit. assert (j = n) as -> by lia.
    rewrite (bind_Ok _ _ _ _ _ Hrun). done.
Qed.

(** ** The accesses of add_arrays_simd when the buffers may overlap *)

Lemma extends_refl m : extends m m.
Proof. by intros q. Qed.

Lemma extends_trans m1 m2 m3 : extends m1 m2 → extends m2 m3 → extends m1 m3.
Proof. intros H12 H23 q. destruct (H12 q), (H23 q). auto. Qed.

Lemma insert_extends (m : memory) p x : extends m (<[p := Some x]> m).
Proof.
  intros q. unfold mem_load. destruct (decide (p = q)) as [->|Hne].
  - rewrite lookup_insert_eq. eauto.
  - by rewrite lookup_insert_ne.
Qed.

Lemma write_cells_extends m p l : extends m (write_cells m p l).
Proof.
  revert m p. induction l as [|x l IH]; intros m p; [apply extends_refl|].
  simpl. eapply extends_trans; [apply insert_extends | apply IH].
Qed.

Section add_arrays_trace.
Variables (a b c : ptr) (n : Z) (va vb : list float) (m0 : memory).
Hypothesis Hn : 0 ≤ n.
Hypothesis Hsize : sizeof_float * n ≤ SIZE_MAX.
Hypothesis Ha : mem_load_vec m0 a n = Some va.
Hypothesis Hb : mem_load_vec m0 b n = Some vb.
Hypothesis Hc : allocated m0 c n = true.

Lemma load_vec_extends (p : ptr) (v : list float) (m : memory) (i w : Z) :
  mem_load_vec m0 p n = Some v → extends m0 m →
  0 ≤ i → 0 ≤ w → i + w ≤ n →
  ∃ l, mem_load_vec m (p +ₚ i) w = Some l ∧ length l = Z.to_nat w.
Proof.
  intros [Hlen Hv]%mem_load_vec_spec Hext Hi Hw Hiw.
  assert (is_Some (mem_load_vec m (p +ₚ i) w)) as [l Hl].
  { apply mapM_is_Some, Forall_seqZ. intros k Hk. simpl.
    apply Hext. rewrite ptr_add_add.
    destruct (lookup_lt_is_Some_2 v (Z.to_nat (i + k))) as [x Hx]; [lia|].
    apply Hv in Hx. rewrite Z2Nat.id in Hx by lia. eauto. }
  exists l. split; [done|]. by apply mem_load_vec_spec in Hl as [? _].
Qed.

Lemma load_extends (p : ptr) (v : list float) (m : memory) (i : Z) :
  mem_load_vec m0 p n = Some v → extends m0 m → 0 ≤ i < n →
  is_Some (mem_load m (p +ₚ i)).
Proof.
  intros [Hlen Hv]%mem_load_vec_spec Hext Hi. apply Hext.
  destruct (lookup_lt_is_Some_2 v (Z.to_nat i)) as [x Hx]; [lia|].
  apply Hv in Hx. rewrite Z2Nat.id in Hx by lia. eauto.
Qed.

Lemma allocated_extends (m : memory) (i w : Z) :
  extends m0 m → 0 ≤ i → i + w ≤ n → allocated m (c +ₚ i) w = true.
Proof using Hc.
  intros Hext Hi Hiw. apply allocated_spec. intros k Hk.
  apply Hext. rewrite ptr_add_add. rewrite allocated_spec in Hc.
  apply Hc. lia.
Qed.

(** One round of the chunked loop: three accesses. *)
Lemma chunk_step_trace (w i : Z) (s : state) :
  0 < w → 0 ≤ i → i + w ≤ n → extends m0 (mem s) →
  ∃ s',
    (let* x := vec_load w (a +ₚ i) in
     let* y := vec_load w (b +ₚ i) in
     vec_store w (c +ₚ i) (zip_with fadd x y)) s = Ok tt s' ∧
    extends m0 (mem s') ∧
    trace s' = trace s ++ [EvLoad w (a +ₚ i); EvLoad w (b +ₚ i);
                           EvStore w (c +ₚ i)].
Proof using All.
  intros Hw Hi Hiw Hext.
  destruct (load_vec_extends a va (mem s) i w) as (x & Hx & Hlx); [done..|lia|done|].
  destruct (load_vec_extends b vb (mem s) i w) as (y & Hy & Hly); [done..|lia|done|].
  eexists. split; [|split].
  - erewrite bind_Ok by by apply vec_load_Ok.
    erewrite bind_Ok by by apply vec_load_Ok.
    apply vec_store_Ok. cbn [log mem]. apply allocated_extends; [done..|].
    rewrite length_zip_with. lia.
  - cbn [log set_mem mem].
    eapply extends_trans; [done | apply write_cells_extends].
  - cbn [log set_mem trace]. by rewrite <- !app_assoc.
Qed.

(** One round of an element-wise loop: three accesses. *)
Lemma scalar_step_trace (i : Z) (s : state) :
  0 ≤ i < n → extends m0 (mem s) →
  ∃ s', add_one a b c i s = Ok tt s' ∧ extends m0 (mem s') ∧
    trace s' = trace s ++ [EvLoad 1 (a +ₚ i); EvLoad 1 (b +ₚ i);
                           EvStore 1 (c +ₚ i)].
Proof using All.
  intros Hi Hext. unfold add_one.
  destruct (load_extends a va (mem s) i) as [x Hx]; [done..|].
  destruct (load_extends b vb (mem s) i) as [y Hy]; [done..|].
  eexists. split; [|split].
  - erewrite bind_Ok by by apply load_Ok.
    erewrite bind_Ok by by apply load_Ok.
    apply store_Ok. cbn [log mem]. apply Hext.
    rewrite allocated_spec in Hc. apply Hc. lia.
  - cbn [log set_mem mem].
    eapply extends_trans; [done | apply insert_extends].
  - cbn [log set_mem trace]. by rewrite <- !app_assoc.
Qed.

Lemma chunk_loop_trace (w : Z) (fuel : nat) (s : state) :
  0 < w ≤ 8 → (Z.to_nat n < fuel)%nat → extends m0 (mem s) →
  ∃ s',
    for_loop fuel (λ i, wrap (i + w) <=? n) (λ i, wrap (i + w))
      (λ i,
         let* x := vec_load w (a +ₚ i) in
         let* y := vec_load w (b +ₚ i) in
         vec_store w (c +ₚ i) (zip_with fadd x y))
      0 s = Ok (n / w * w) s' ∧
    extends m0 (mem s') ∧
    trace s' = trace s ++ chunk_events w a b c (n / w).
Proof using All.
  intros Hw Hfuel Hext.
  assert (n + 8 < 2 ^ size_bits) as Hb8.
  { unfold sizeof_float, SIZE_MAX, size_bits in *.
    change (2 ^ 64) with 18446744073709551616 in *. lia. }
  destruct (for_loop_rule
    (λ i s', ∃ k, 0 ≤ k ∧ i = w * k ∧ w * k ≤ n ∧ extends m0 (mem s') ∧
                  trace s' = trace s ++ chunk_events w a b c k)
    (λ i, Z.to_nat (n - i))
    (λ i, wrap (i + w) <=? n) (λ i, wrap (i + w))
    (λ i,
       let* x := vec_load w (a +ₚ i) in
       let* y := vec_load w (b +ₚ i) in
       vec_store w (c +ₚ i) (zip_with fadd x y)))
    with (fuel := fuel) (i := 0) (s := s)
    as (j & s' & Hrun & (k & Hk & -> & Hkn & Hext' & Htr) & Hexit).
  - intros i s1 (k & Hk & -> & Hkn & Hext1 & Htr) Hcond.
    rewrite wrap_small in * by nia. apply Z.leb_le in Hcond.
    destruct (chunk_step_trace w (w * k) s1) as (s2 & Hrun & Hext2 & Htr2);
      [lia|nia|lia|done|].
    exists s2. split; [done|]. split; [|lia].
    exists (k + 1). rewrite chunk_events_succ, Htr2, Htr, <- app_assoc by done.
    split; [lia|]. split; [lia|]. split; [lia|]. by split.
  - exists 0. rewrite Z.mul_0_r.
    split; [lia|]. split; [lia|]. split; [lia|]. split; [done|].
    unfold chunk_events. rewrite seqZ_nil by lia. simpl. by rewrite app_nil_r.
  - lia.
  - rewrite wrap_small in Hexit by nia. apply Z.leb_gt in Hexit.
    assert (k = n / w) as -> by (apply Z.div_unique with (n - w * k); lia).
    exists s'. by rewrite Hrun, (Z.mul_comm w).
Qed.

Lemma scalar_loop_trace (fuel : nat) (i0 : Z) (s : state) :
  0 ≤ i0 ≤ n → (Z.to_nat n < fuel)%nat → extends m0 (mem s) →
  ∃ s',
    for_loop fuel (λ i, i <? n) (λ i, wrap (i + 1)) (add_one a b c) i0 s
    = Ok n s' ∧
    extends m0 (mem s') ∧
    trace s' = trace s ++ scalar_events a b c i0 (n - i0).
Proof using All.
  intros Hi0 Hfuel Hext.
  assert (n + 8 < 2 ^ size_bits) as Hb8.
  { unfold sizeof_float, SIZE_MAX, size_bits in *.
    change (2 ^ 64) with 18446744073709551616 in *. lia. }
  destruct (for_loop_rule
    (λ i s', i0 ≤ i ≤ n ∧ extends m0 (mem s') ∧
             trace s' = trace s ++ scalar_events a b c i0 (i - i0))
    (λ i, Z.to_nat (n - i))
    (λ i, i <? n) (λ i, wrap (i + 1)) (add_one a b c))
    with (fuel := fuel) (i := i0) (s := s)
    as (j & s' & Hrun & (Hj & Hext' & Htr) & Hexit).
  - intros i s1 (Hi & Hext1 & Htr) Hcond. apply Z.ltb_lt in Hcond.
    rewrite wrap_small by lia.
    destruct (scalar_step_trace i s1) as (s2 & Hrun & Hext2 & Htr2);
      [lia|done|].
    exists s2. split; [done|]. split; [|lia].
    split; [lia|]. split; [done|].
    replace (i + 1 - i0) with (i - i0 + 1) by lia.
    rewrite scalar_events_succ, Htr2, Htr, <- app_assoc by lia.
    by replace (i0 + (i - i0)) with i by lia.
  - split; [lia|]. split; [done|]. rewrite Z.sub_diag. unfold scalar_events.
    rewrite seqZ_nil by lia. simpl. by rewrite app_nil_r.
  - lia.
  - apply Z.ltb_ge in Hexit. assert (j = n) as -> by lia. eauto.
Qed.

(** The accesses of add_arrays_simd are [add_events], whether or not the
    three buffers overlap. *)
Lemma add_arrays_simd_trace (cfg : build) (fuel : nat) (s : state) :
  mem s = m0 → well_formed cfg = true → (Z.to_nat n < fuel)%nat →
  ∃ s', add_arrays_simd cfg fuel a b c n s = Ok tt s' ∧
        trace s' = trace s ++ add_events cfg a b c n.
Proof using All.
  intros Hm Hwf Hfuel.
  unfold add_arrays_simd, well_formed, add_events, chunk_size in *.
  assert (∀ w, 0 < w → n - n / w * w = n mod w) as Hmod
    by (intros w Hw; rewrite Z.mod_eq by lia; lia).
  assert (∀ t, extends m0 (mem (write_stdout t s))) as Hext0
    by (intros t; cbn [write_stdout mem]; rewrite Hm; apply extends_refl).
  destruct (__AVX__ cfg); [|destruct (__SSE2__ cfg)].
  - unfold puts at 1. unfold bind at 1.
    destruct (chunk_loop_trace 8 fuel (write_stdout ("AVX is detected." +:+ nl) s))
      as (s1 & Hrun1 & Hext1 & Htr1); [lia|done|done|].
    rewrite (bind_Ok _ _ _ _ _ Hrun1).
    destruct (scalar_loop_trace fuel (n / 8 * 8) s1)
      as (s2 & Hrun2 & Hext2 & Htr2); [|done|done|].
    { pose proof (Z.mul_div_le n 8). pose proof (Z.div_pos n 8). lia. }
    rewrite (bind_Ok _ _ _ _ _ Hrun2). exists s2. split; [done|].
    by rewrite Htr2, Htr1, Hmod, <- app_assoc.
  - destruct (SSE2 cfg) as [t|]; [|done].
    unfold puts at 1. unfold bind at 1.
    destruct (chunk_loop_trace 4 fuel (write_stdout ((t +:+ "is detected.") +:+ nl) s))
      as (s1 & Hrun1 & Hext1 & Htr1); [lia|done|done|].
    rewrite (bind_Ok _ _ _ _ _ Hrun1).
    destruct (scalar_loop_trace fuel (n / 4 * 4) s1)
      as (s2 & Hrun2 & Hext2 & Htr2); [|done|done|].
    { pose proof (Z.mul_div_le n 4). pose proof (Z.div_pos n 4). lia. }
    rewrite (bind_Ok _ _ _ _ _ Hrun2). exists s2. split; [done|].
    by rewrite Htr2, Htr1, Hmod, <- app_assoc.
  - unfold puts at 1. unfold bind at 1.
    destruct (scalar_loop_trace fuel 0
                (write_stdout ("no SIMD extension is detected." +:+ nl) s))
      as (s2 & Hrun2 & Hext2 & Htr2); [lia|done|done|].
    rewrite (bind_Ok _ _ _ _ _ Hrun2). exists s2. split; [done|].
    by rewrite Htr2, Z.sub_0_r.
Qed.
End add_arrays_trace.

(** ** Fuel *)

Lemma mono_const {A} (m : M A) : mono (λ _, m).
Proof. by intros fuel fuel' s x s' H _. Qed.

Lemma mono_bind {A B} (f : nat → M A) (g : A → nat → M B) :
  mono f → (∀ x, mono (g x)) → mono (λ fuel, bind (f fuel) (λ x, g x fuel)).
Proof.
  intros Hf Hg fuel fuel' s y s'' H Hle.
  apply bind_Ok_inv in H as (x & s' & H1 & H2).
  rewrite (bind_Ok _ _ _ _ _ (Hf _ _ _ _ _ H1 Hle)). by eapply Hg.
Qed.

Lemma mono_for_loop cond next body i :
  mono (λ fuel, for_loop fuel cond next body i).
Proof. intros fuel fuel' s x s'. apply for_loop_fuel_mono. Qed.

Lemma mono_if {A} (t : bool) (f g : nat → M A) :
  mono f → mono g → mono (λ fuel, if t then f fuel else g fuel).
Proof. by destruct t. Qed.

Create HintDb mono discriminated.
#[local] Hint Resolve mono_const mono_for_loop : mono.
#[local] Hint Extern 2 (mono (λ fuel, bind _ _)) =>
  apply mono_bind; [|intros ?] : mono.
#[local] Hint Extern 2 (mono (λ fuel, if _ then _ else _)) =>
  apply mono_if : mono.

Lemma mono_initialize_arrays a b n : mono (λ fuel, initialize_arrays fuel a b n).
Proof. unfold initialize_arrays. auto with mono. Qed.

Lemma mono_add_arrays_simd cfg a b c n :
  mono (λ fuel, add_arrays_simd cfg fuel a b c n).
Proof.
  unfold add_arrays_simd.
  destruct (__AVX__ cfg), (__SSE2__ cfg), (SSE2 cfg); auto 10 with mono.
Qed.

Lemma mono_main cfg : mono (main cfg).
Proof.
  unfold main.
  pose proof mono_initialize_arrays. pose proof mono_add_arrays_simd.
  auto 20 with mono.
Qed.

(** ** Reading back what was written, and the range of the accesses *)

Lemma write_cells_read m p l n :
  length l = Z.to_nat n → mem_load_vec (write_cells m p l) p n = Some l.
Proof.
  intros Hlen. apply mem_load_vec_spec. split; [done|].
  intros i x Hx. unfold mem_load. by erewrite write_cells_lookup_in.
Qed.

Lemma in_range_self p n w i :
  0 ≤ i → i + w ≤ n → in_range p n w (p +ₚ i) = true.
Proof.
  intros Hi Hiw. unfold in_range, ptr_add. cbn [fst snd].
  rewrite bool_decide_eq_true_2 by done.
  rewrite !andb_true_iff, !Z.leb_le. lia.
Qed.

Lemma access_in_bounds w a b c n i :
  0 < w → 0 ≤ i → i + w ≤ n →
  Forall (λ e, in_bounds a b c n e = true)
    [EvLoad w (a +ₚ i); EvLoad w (b +ₚ i); EvStore w (c +ₚ i)].
Proof.
  intros Hw%Z.ltb_lt Hi Hiw.
  repeat first [apply List.Forall_nil | apply List.Forall_cons];
    unfold in_bounds; rewrite Hw, !in_range_self by done;
    by rewrite ?orb_true_r.
Qed.

Lemma chunk_events_in_bounds w a b c n k :
  0 < w → 0 ≤ k → w * k ≤ n →
  Forall (λ e, in_bounds a b c n e = true) (chunk_events w a b c k).
Proof.
  intros Hw Hk Hkn. unfold chunk_events. apply Forall_join, Forall_fmap.
  apply Forall_seqZ. intros j Hj. simpl.
  apply access_in_bounds; [done|nia..].
Qed.

Lemma scalar_events_in_bounds a b c n i k :
  0 ≤ i → i + k ≤ n →
  Forall (λ e, in_bounds a b c n e = true) (scalar_events a b c i k).
Proof.
  intros Hi Hik. unfold scalar_events. apply Forall_join, Forall_fmap.
  apply Forall_seqZ. intros j Hj. simpl.
  apply access_in_bounds; lia.
Qed.

Lemma add_events_in_bounds cfg a b c n :
  0 ≤ n → Forall (λ e, in_bounds a b c n e = true) (add_events cfg a b c n).
Proof.
  intros Hn. unfold add_events, chunk_size.
  assert (∀ w, 0 < w →
    Forall (λ e, in_bounds a b c n e = true)
      (chunk_events w a b c (n / w) ++ scalar_events a b c (n / w * w) (n mod w)))
    as Hvec.
  { intros w Hw. pose proof (Z.mul_div_le n w Hw).
    pose proof (Z.div_pos n w Hn Hw). apply Forall_app. split.
    - by apply chunk_events_in_bounds.
    - apply scalar_events_in_bounds; [nia|]. rewrite Z.mod_eq by lia. lia. }
  destruct (__AVX__ cfg); [by apply Hvec|].
  destruct (__SSE2__ cfg); [by apply Hvec|].
  by apply scalar_events_in_bounds.
Qed.

(** An element of an input array, as a list element and as a cell. *)
Lemma input_cell m p n v i :
  mem_load_vec m p n = Some v → 0 ≤ i < n →
  ∃ x, v !! Z.to_nat i = Some x ∧ mem_load m (p +ₚ i) = Some x.
Proof.
  intros [Hlen Hv]%mem_load_vec_spec Hi.
  destruct (lookup_lt_is_Some_2 v (Z.to_nat i)) as [x Hx]; [lia|].
  exists x. split; [done|]. apply Hv in Hx. by rewrite Z2Nat.id in Hx by lia.
Qed.

(** An element of the output array once all [n] elements are done. *)
Lemma output_cell c va vb s out evs n i x y :
  length va = Z.to_nat n → length vb = Z.to_nat n → 0 ≤ i < n →
  va !! Z.to_nat i = Some x → vb !! Z.to_nat i = Some y →
  mem_load (mem (state_after c va vb s out n evs)) (c +ₚ i) = Some (fadd x y).
Proof.
  intros Hla Hlb Hi Hx Hy. unfold mem_load, state_after. cbn [mem].
  rewrite take_ge by (rewrite length_zip_with; lia).
  rewrite <- (Z2Nat.id i) at 1 by lia.
  erewrite write_cells_lookup_in; [done|].
  apply lookup_zip_with_Some. eauto.
Qed.

(** ** Why the statements below have the hypotheses they have *)

(** The guard [i + 8 <= n] is computed in [size_t]: with [n] within 7 of
    [SIZE_MAX] it holds again once [i + 8] has wrapped.  No array is that
    long: [n] floats that fit in an object have
    [sizeof(float) * n <= SIZE_MAX]. *)
Example chunk_guard_wraps :
  (wrap (SIZE_MAX - 7 + 8) <=? SIZE_MAX) = true ∧
  ¬ (SIZE_MAX - 7 + 8 ≤ SIZE_MAX).
Proof. split; [reflexivity|]. vm_compute. auto. Qed.

(** When the output overlaps an input, the strategies need not agree: with
    [c = a + 1] the vector loop reads eight elements of [a] before it writes
    any, while the element-wise loop reads what it has just written. *)
Example overlap_diverges :
  cell_after (add_arrays_simd AVX_build 10 demo_a demo_b (demo_a +ₚ 1) 8 demo_state)
             (demo_a +ₚ 2) = Some (float_of_size_t 9) ∧
  cell_after (add_arrays_simd scalar_build 10 demo_a demo_b (demo_a +ₚ 1) 8 demo_state)
             (demo_a +ₚ 2) = Some (float_of_size_t 17).
Proof. split; vm_compute; reflexivity. Qed.

(** * The properties *)

(** ** Element-wise sums *)

(** C1. For every length [n], inputs [a] and [b] of [n] floats and an
    allocated output [c] of [n] floats that overlaps neither, and for every
    build that compiles (8 lanes, 4 lanes or none), add_arrays_simd returns
    and leaves [c[i] = a[i] + b[i]], the binary32 sum, at every [i] below
    [n].  The [n] floats are taken to fit in an object
    ([sizeof(float) * n <= SIZE_MAX]). *)
Theorem add_arrays_simd_sums (cfg : build) (fuel : nat) (a b c : ptr) (n : Z)
    (va vb : list float) (s : state) :
  well_formed cfg = true →
  0 ≤ n → sizeof_float * n ≤ SIZE_MAX →
  mem_load_vec (mem s) a n = Some va →
  mem_load_vec (mem s) b n = Some vb →
  allocated (mem s) c n = true →
  separate c a n = true → separate c b n = true →
  (Z.to_nat n < fuel)%nat →
  ∃ s', add_arrays_simd cfg fuel a b c n s = Ok tt s' ∧
    ∀ i, 0 ≤ i < n →
      ∃ x y, mem_load (mem s) (a +ₚ i) = Some x ∧
             mem_load (mem s) (b +ₚ i) = Some y ∧
             mem_load (mem s') (c +ₚ i) = Some (fadd x y).
Proof.
  intros Hwf Hn Hsz Ha Hb Hc Hca Hcb Hfuel. eexists. split.
  { by apply (add_arrays_simd_spec a b c n va vb s). }
  intros i Hi.
  destruct (input_cell _ _ _ _ i Ha Hi) as (x & Hx & Hax).
  destruct (input_cell _ _ _ _ i Hb Hi) as (y & Hy & Hby).
  apply mem_load_vec_spec in Ha as [Hla _], Hb as [Hlb _].
  exists x, y. split; [done|]. split; [done|]. by apply output_cell.
Qed.

Lemma add_arrays_simd_sums_witness :
  ∃ s', add_arrays_simd AVX_build 10 demo_a demo_b demo_c 9 demo_state = Ok tt s' ∧
    ∀ i, 0 ≤ i < 9 →
      ∃ x y, mem_load (mem demo_state) (demo_a +ₚ i) = Some x ∧
             mem_load (mem demo_state) (demo_b +ₚ i) = Some y ∧
             mem_load (mem s') (demo_c +ₚ i) = Some (fadd x y).
Proof.
  apply (add_arrays_simd_sums AVX_build 10 demo_a demo_b demo_c 9
           demo_va demo_vb demo_state);
    [reflexivity | lia | vm_compute; discriminate | vm_compute; reflexivity
    | vm_compute; reflexivity | reflexivity | reflexivity | reflexivity | lia].
Defined.

(** ** The three strategies agree *)

(** C2. On the same inputs the 8-lane build, the 4-lane build and the
    scalar build leave the same memory, and so the same output array, down
    to the last bit of every element. *)
Theorem strategies_agree (wide narrow scalar : build) (fuel : nat)
    (a b c : ptr) (n : Z) (va vb : list float) (s : state) :
  chunk_size wide = Some 8 → chunk_size narrow = Some 4 →
  chunk_size scalar = None → well_formed narrow = true →
  0 ≤ n → sizeof_float * n ≤ SIZE_MAX →
  mem_load_vec (mem s) a n = Some va →
  mem_load_vec (mem s) b n = Some vb →
  allocated (mem s) c n = true →
  separate c a n = true → separate c b n = true →
  (Z.to_nat n < fuel)%nat →
  ∃ s8 s4 s1 out,
    add_arrays_simd wide fuel a b c n s = Ok tt s8 ∧
    add_arrays_simd narrow fuel a b c n s = Ok tt s4 ∧
    add_arrays_simd scalar fuel a b c n s = Ok tt s1 ∧
    mem s8 = mem s4 ∧ mem s4 = mem s1 ∧
    mem_load_vec (mem s8) c n = Some out ∧
    mem_load_vec (mem s4) c n = Some out ∧
    mem_load_vec (mem s1) c n = Some out.
Proof.
  intros H8 H4 H1 Hwf Hn Hsz Ha Hb Hc Hca Hcb Hfuel.
  assert (well_formed wide = true) as Hwf8.
  { unfold chunk_size, well_formed in *. by destruct (__AVX__ wide), (__SSE2__ wide). }
  assert (well_formed scalar = true) as Hwf1.
  { unfold chunk_size, well_formed in *.
    by destruct (__AVX__ scalar), (__SSE2__ scalar). }
  pose proof Ha as [Hla _]%mem_load_vec_spec.
  pose proof Hb as [Hlb _]%mem_load_vec_spec.
  do 3 eexists. exists (zip_with fadd va vb).
  split; [by apply (add_arrays_simd_spec a b c n va vb s)|].
  split; [by apply (add_arrays_simd_spec a b c n va vb s)|].
  split; [by apply (add_arrays_simd_spec a b c n va vb s)|].
  unfold state_after. cbn [mem]. split; [done|]. split; [done|].
  rewrite take_ge by (rewrite length_zip_with; lia).
  assert (mem_load_vec (write_cells (mem s) c (zip_with fadd va vb)) c n
          = Some (zip_with fadd va vb)) as Hout
    by (apply write_cells_read; rewrite length_zip_with; lia).
  done.
Qed.

Lemma strategies_agree_witness :
  ∃ s8 s4 s1 out,
    add_arrays_simd AVX_build 10 demo_a demo_b demo_c 9 demo_state = Ok tt s8 ∧
    add_arrays_simd SSE2_build 10 demo_a demo_b demo_c 9 demo_state = Ok tt s4 ∧
    add_arrays_simd scalar_build 10 demo_a demo_b demo_c 9 demo_state = Ok tt s1 ∧
    mem s8 = mem s4 ∧ mem s4 = mem s1 ∧
    mem_load_vec (mem s8) demo_c 9 = Some out ∧
    mem_load_vec (mem s4) demo_c 9 = Some out ∧
    mem_load_vec (mem s1) demo_c 9 = Some out.
Proof.
  apply (strategies_agree AVX_build SSE2_build scalar_build 10
           demo_a demo_b demo_c 9 demo_va demo_vb demo_state);
    [reflexivity | reflexivity | reflexivity | reflexivity | lia
    | vm_compute; discriminate | vm_compute; reflexivity
    | vm_compute; reflexivity | reflexivity | reflexivity | reflexivity | lia].
Defined.

(** ** The remainder loop *)

(** C3. In a build with a vector loop of [w] lanes, the accesses of
    add_arrays_simd are those of [n / w] rounds of the vector loop, which
    cover the elements below [n / w * w], followed by those of the
    element-wise loop over the [n mod w] elements from [n / w * w] on; each
    of these trailing elements ends as [c[i] = a[i] + b[i]]; and for
    [n = 0] there is no access and the memory is unchanged.  This holds for
    every [n], a multiple of [w] or not. *)
Theorem remainder_loop (cfg : build) (w : Z) (fuel : nat) (a b c : ptr) (n : Z)
    (va vb : list float) (s : state) :
  chunk_size cfg = Some w → well_formed cfg = true →
  0 ≤ n → sizeof_float * n ≤ SIZE_MAX →
  mem_load_vec (mem s) a n = Some va →
  mem_load_vec (mem s) b n = Some vb →
  allocated (mem s) c n = true →
  separate c a n = true → separate c b n = true →
  (Z.to_nat n < fuel)%nat →
  ∃ s', add_arrays_simd cfg fuel a b c n s = Ok tt s' ∧
    trace s' = trace s ++ chunk_events w a b c (n / w)
                       ++ scalar_events a b c (n / w * w) (n mod w) ∧
    (∀ i, n / w * w ≤ i < n →
       ∃ x y, mem_load (mem s) (a +ₚ i) = Some x ∧
              mem_load (mem s) (b +ₚ i) = Some y ∧
              mem_load (mem s') (c +ₚ i) = Some (fadd x y)) ∧
    (n = 0 → trace s' = trace s ∧ mem s' = mem s).
Proof.
  intros Hw Hwf Hn Hsz Ha Hb Hc Hca Hcb Hfuel. eexists. split.
  { by apply (add_arrays_simd_spec a b c n va vb s). }
  assert (0 < w) as Hw0.
  { unfold chunk_size in Hw.
    destruct (__AVX__ cfg); [|destruct (__SSE2__ cfg)]; naive_solver lia. }
  split; [|split].
  - unfold state_after, add_events. by rewrite Hw.
  - intros i Hi. pose proof (Z.div_pos n w Hn Hw0).
    assert (0 ≤ i < n) as Hi' by nia.
    destruct (input_cell _ _ _ _ i Ha Hi') as (x & Hx & Hax).
    destruct (input_cell _ _ _ _ i Hb Hi') as (y & Hy & Hby).
    apply mem_load_vec_spec in Ha as [Hla _], Hb as [Hlb _].
    exists x, y. split; [done|]. split; [done|]. by apply output_cell.
  - intros ->. unfold state_after, add_events. rewrite Hw. cbn [mem trace].
    rewrite Z.div_0_l, Z.mod_0_l by lia. simpl.
    unfold chunk_events, scalar_events. rewrite !seqZ_nil by lia. simpl.
    by rewrite app_nil_r.
Qed.

Lemma remainder_loop_witness :
  ∃ s', add_arrays_simd AVX_build 10 demo_a demo_b demo_c 9 demo_state = Ok tt s' ∧
    trace s' = trace demo_state ++ chunk_events 8 demo_a demo_b demo_c (9 / 8)
                 ++ scalar_events demo_a demo_b demo_c (9 / 8 * 8) (9 mod 8) ∧
    (∀ i, 9 / 8 * 8 ≤ i < 9 →
       ∃ x y, mem_load (mem demo_state) (demo_a +ₚ i) = Some x ∧
              mem_load (mem demo_state) (demo_b +ₚ i) = Some y ∧
              mem_load (mem s') (demo_c +ₚ i) = Some (fadd x y)) ∧
    (9 = 0 → trace s' = trace demo_state ∧ mem s' = mem demo_state).
Proof.
  apply (remainder_loop AVX_build 8 10 demo_a demo_b demo_c 9
           demo_va demo_vb demo_state);
    [reflexivity | reflexivity | lia | vm_compute; discriminate
    | vm_compute; reflexivity | vm_compute; reflexivity
    | reflexivity | reflexivity | reflexivity | lia].
Defined.

(** ** The frame of add_arrays_simd *)

(** C9. With [c] overlapping neither [a] nor [b], add_arrays_simd leaves
    every element of [a] and of [b] as it was, in every build: the only
    cells that may differ afterwards are the [n] cells of [c]. *)
Theorem add_arrays_simd_frame (cfg : build) (fuel : nat) (a b c : ptr) (n : Z)
    (va vb : list float) (s : state) :
  well_formed cfg = true →
  0 ≤ n → sizeof_float * n ≤ SIZE_MAX →
  mem_load_vec (mem s) a n = Some va →
  mem_load_vec (mem s) b n = Some vb →
  allocated (mem s) c n = true →
  separate c a n = true → separate c b n = true →
  (Z.to_nat n < fuel)%nat →
  ∃ s', add_arrays_simd cfg fuel a b c n s = Ok tt s' ∧
    mem_load_vec (mem s') a n = Some va ∧
    mem_load_vec (mem s') b n = Some vb ∧
    ∀ q : ptr, q.1 ≠ c.1 ∨ q.2 < c.2 ∨ c.2 + n ≤ q.2 →
      mem s' !! q = mem s !! q.
Proof.
  intros Hwf Hn Hsz Ha Hb Hc Hca Hcb Hfuel. eexists. split.
  { by apply (add_arrays_simd_spec a b c n va vb s). }
  pose proof Ha as [Hla _]%mem_load_vec_spec.
  pose proof Hb as [Hlb _]%mem_load_vec_spec.
  unfold state_after. cbn [mem]. split; [|split].
  - rewrite <- (ptr_add_0 a) at 1.
    rewrite (load_through a b c n va vb s Ha Hb a va 0 n) by (done || lia).
    f_equal. rewrite drop_0. apply take_ge. lia.
  - rewrite <- (ptr_add_0 b) at 1.
    rewrite (load_through a b c n va vb s Ha Hb b vb 0 n) by (done || lia).
    f_equal. rewrite drop_0. apply take_ge. lia.
  - intros q Hq. apply write_cells_lookup_out.
    pose proof (length_take (zip_with fadd va vb) (Z.to_nat n)). lia.
Qed.

Lemma add_arrays_simd_frame_witness :
  ∃ s', add_arrays_simd SSE2_build 10 demo_a demo_b demo_c 9 demo_state = Ok tt s' ∧
    mem_load_vec (mem s') demo_a 9 = Some demo_va ∧
    mem_load_vec (mem s') demo_b 9 = Some demo_vb ∧
    ∀ q : ptr, q.1 ≠ demo_c.1 ∨ q.2 < demo_c.2 ∨ demo_c.2 + 9 ≤ q.2 →
      mem s' !! q = mem demo_state !! q.
Proof.
  apply (add_arrays_simd_frame SSE2_build 10 demo_a demo_b demo_c 9
           demo_va demo_vb demo_state);
    [reflexivity | lia | vm_compute; discriminate | vm_compute; reflexivity
    | vm_compute; reflexivity | reflexivity | reflexivity | reflexivity | lia].
Defined.

(** ** initialize_arrays *)

(** C5. For every [n] of type [size_t] and buffers [a] and [b] of [n]
    floats that do not overlap, initialize_arrays returns and leaves
    [a[i] = (float)i] and [b[i] = (float)(n - i)] at every [i] below [n],
    whatever the state it starts from. *)
Theorem initialize_arrays_pattern (fuel : nat) (a b : ptr) (n : Z) (s : state) :
  0 ≤ n ≤ SIZE_MAX →
  allocated (mem s) a n = true → allocated (mem s) b n = true →
  separate a b n = true →
  (Z.to_nat n < fuel)%nat →
  ∃ s', initialize_arrays fuel a b n s = Ok tt s' ∧
    ∀ i, 0 ≤ i < n →
      mem_load (mem s') (a +ₚ i) = Some (float_of_size_t i) ∧
      mem_load (mem s') (b +ₚ i) = Some (float_of_size_t (n - i)).
Proof.
  intros Hn Ha Hb Hsep Hfuel. eexists. split.
  { by apply initialize_arrays_spec. }
  intros i Hi. cbn [mem]. unfold mem_load.
  destruct (init_mem_lookup (mem s) a b n n Hsep ltac:(lia) i Hi) as [-> ->].
  done.
Qed.

Lemma initialize_arrays_pattern_witness :
  ∃ s', initialize_arrays 10 demo_a demo_b 9 demo_state = Ok tt s' ∧
    ∀ i, 0 ≤ i < 9 →
      mem_load (mem s') (demo_a +ₚ i) = Some (float_of_size_t i) ∧
      mem_load (mem s') (demo_b +ₚ i) = Some (float_of_size_t (9 - i)).
Proof.
  apply (initialize_arrays_pattern 10 demo_a demo_b 9 demo_state);
    [vm_compute; split; discriminate | reflexivity | reflexivity | reflexivity
    | lia].
Defined.

(** ** Memory safety of add_arrays_simd *)

(** C10. When [a] and [b] hold [n] floats and [c] has [n] cells, whether
    or not they overlap, add_arrays_simd returns and each of its accesses,
    of 8, 4 or 1 lanes, lies inside the first [n] elements of the array it
    goes to: loads in [a] or [b], stores in [c]. *)
Theorem accesses_in_bounds (cfg : build) (fuel : nat) (a b c : ptr) (n : Z)
    (va vb : list float) (s : state) :
  well_formed cfg = true →
  0 ≤ n → sizeof_float * n ≤ SIZE_MAX →
  mem_load_vec (mem s) a n = Some va →
  mem_load_vec (mem s) b n = Some vb →
  allocated (mem s) c n = true →
  (Z.to_nat n < fuel)%nat →
  ∃ s' evs, add_arrays_simd cfg fuel a b c n s = Ok tt s' ∧
    trace s' = trace s ++ evs ∧
    Forall (λ e, in_bounds a b c n e = true) evs.
Proof.
  intros Hwf Hn Hsz Ha Hb Hc Hfuel.
  destruct (add_arrays_simd_trace a b c n va vb (mem s) Hn Hsz Ha Hb Hc cfg fuel s)
    as (s' & Hrun & Htr); [done..|].
  exists s', (add_events cfg a b c n). split; [done|]. split; [done|].
  by apply add_events_in_bounds.
Qed.

Lemma accesses_in_bounds_witness :
  ∃ s' evs,
    add_arrays_simd AVX_build 10 demo_a demo_b demo_c 9 demo_state = Ok tt s' ∧
    trace s' = trace demo_state ++ evs ∧
    Forall (λ e, in_bounds demo_a demo_b demo_c 9 e = true) evs.
Proof.
  apply (accesses_in_bounds AVX_build 10 demo_a demo_b demo_c 9
           demo_va demo_vb demo_state);
    [reflexivity | lia | vm_compute; discriminate | vm_compute; reflexivity
    | vm_compute; reflexivity | reflexivity | lia].
Defined.

(** ** The choice of the strategy *)

(** C7. The strategy is chosen from the build alone, by a strict priority
    chain: with [__AVX__] the 8-lane strategy, whatever [__SSE2__] is;
    otherwise with [__SSE2__] the 4-lane strategy; otherwise the scalar one.
    Every call of add_arrays_simd in that build, on any arrays and in any
    state, runs the strategy so chosen. *)
Theorem strategy_priority_chain (cfg : build) :
  ∃ st,
    st = select_strategy (__AVX__ cfg) (__SSE2__ cfg) ∧
    (__AVX__ cfg = true → st = Wide) ∧
    (__AVX__ cfg = false → __SSE2__ cfg = true → st = Narrow) ∧
    (__AVX__ cfg = false → __SSE2__ cfg = false → st = Scalar) ∧
    ∀ fuel a b c n s,
      add_arrays_simd cfg fuel a b c n s = run_strategy st cfg fuel a b c n s.
Proof.
  exists (select_strategy (__AVX__ cfg) (__SSE2__ cfg)).
  unfold select_strategy, add_arrays_simd, run_strategy.
  destruct (__AVX__ cfg), (__SSE2__ cfg); repeat split; done.
Qed.

(** ** The line of the narrow path *)

(** C8. With [__SSE2__] and without [__AVX__], the argument of the call of
    puts is the identifier [SSE2] followed by a string literal.  The file
    gives [SSE2] no meaning, so this build is rejected and add_arrays_simd
    prints no line at all. *)
Theorem narrow_line_missing (fuel : nat) (a b c : ptr) (n : Z) (s : state) :
  add_arrays_simd (Build false true None) fuel a b c n s = Err IllFormed.
Proof. reflexivity. Qed.

(** Even a build that defines [SSE2] as a string literal [t] prints [t]
    glued to the rest, with no separator of the source's own. *)
Lemma narrow_line_defined (t : string) (s : state) :
  narrow_line (Build false true (Some t)) s
  = Ok tt (write_stdout ((t +:+ "is detected.") +:+ nl) s).
Proof. reflexivity. Qed.

(** ** The driver *)

Lemma append_assoc (s1 s2 s3 : string) : (s1 +:+ s2) +:+ s3 = s1 +:+ s2 +:+ s3.
Proof.
  induction s1 as [|ch s1 IH]; [reflexivity|].
  change (String ch ((s1 +:+ s2) +:+ s3) = String ch (s1 +:+ s2 +:+ s3)).
  by rewrite IH.
Qed.

Lemma outcome_Some r x out err :
  outcome r = Some (x, out, err) →
  ∃ s', r = Ok x s' ∧ stdout s' = out ∧ stderr s' = err.
Proof. destruct r as [y s'|e]; [|done]. intros [= -> <- <-]. eauto. Qed.

(** A run of main in which the three allocations succeed. *)
Lemma main_success (cfg : build) (o : list bool) :
  well_formed cfg = true → allocations_succeed o = true →
  ∃ s', main cfg 1025 (init_state o) = Ok 0 s' ∧
        stdout s' = diagnostic cfg +:+ nl +:+ ten_lines ∧
        stderr s' = "".
Proof.
  intros Hwf Ho. apply outcome_Some.
  destruct o as [|[] [|[] [|[] o']]];
    try (exfalso; cbv in Ho; discriminate Ho);
    (destruct cfg as [[] sse2 macro];
     [| destruct sse2; [destruct macro as [t|]; [|cbv in Hwf; discriminate Hwf] |]]);
    vm_compute; rewrite ?append_assoc; reflexivity.
Qed.

Lemma outcome_trace_Some r x out err tr :
  outcome_trace r = Some (x, out, err, tr) →
  ∃ s', r = Ok x s' ∧ stdout s' = out ∧ stderr s' = err ∧ trace s' = tr.
Proof. destruct r as [y s'|e]; [|done]. intros [= -> <- <- <-]. eauto. Qed.

(** A run of main in which one of the three allocations fails: nothing is
    printed and no memory is accessed, whatever the fuel. *)
Lemma main_failure (cfg : build) (fuel : nat) (o : list bool) :
  allocations_succeed o = false →
  ∃ s', main cfg fuel (init_state o) = Ok 1 s' ∧ stdout s' = "" ∧
        stderr s' = "Memory allocation failed" +:+ nl ∧ trace s' = [].
Proof.
  intros Ho. apply outcome_trace_Some.
  destruct o as [|[] [|[] [|[] o']]];
    try (exfalso; cbv in Ho; discriminate Ho); vm_compute; reflexivity.
Qed.

(** [i + (1024 - i)] is 1024 in binary32 too. *)
Lemma sum_1024 (i : Z) :
  0 ≤ i < 1024 →
  fadd (float_of_size_t i) (float_of_size_t (1024 - i)) = float_of_size_t 1024.
Proof.
  intros Hi.
  assert (forallb (λ i, bool_decide
            (fadd (float_of_size_t i) (float_of_size_t (1024 - i))
             = float_of_size_t 1024)) (seqZ 0 1024) = true) as H
    by (vm_compute; reflexivity).
  rewrite forallb_forall in H.
  eapply bool_decide_eq_true_1, H, list_elem_of_In, elem_of_seqZ. lia.
Qed.

Lemma lookup_fmap_seqZ {A} (f : Z → A) (n : Z) (i : nat) (x : A) :
  (f <$> seqZ 0 n) !! i = Some x → x = f (Z.of_nat i) ∧ Z.of_nat i < n.
Proof.
  rewrite list_lookup_fmap. destruct (seqZ 0 n !! i) as [k|] eqn:Hk; [|done].
  apply lookup_seqZ in Hk as [-> ?]. by intros [= <-].
Qed.

(** With [a] and [b] apart, the two arrays read back as the pattern. *)
Lemma init_mem_read m a b n :
  separate a b n = true → 0 ≤ n →
  mem_load_vec (init_mem m a b n n) a n = Some (float_of_size_t <$> seqZ 0 n) ∧
  mem_load_vec (init_mem m a b n n) b n
  = Some ((λ i, float_of_size_t (n - i)) <$> seqZ 0 n).
Proof.
  intros Hsep Hn.
  split; apply mem_load_vec_spec;
    (split; [by rewrite length_fmap, length_seqZ|]);
    intros i x [-> Hi]%lookup_fmap_seqZ; unfold mem_load;
    destruct (init_mem_lookup m a b n n Hsep ltac:(lia) (Z.of_nat i) ltac:(lia))
      as [Ha Hb]; by rewrite ?Ha, ?Hb.
Qed.

Lemma allocated_init_mem m a b n p k :
  0 ≤ n → allocated m p k = true → allocated (init_mem m a b n n) p k = true.
Proof.
  rewrite !allocated_spec. intros Hn H j Hj. apply init_mem_is_Some; auto.
Qed.

(** initialize_arrays and then add_arrays_simd, for any [n]. *)
Lemma init_then_add (cfg : build) (fuel : nat) (a b c : ptr) (n : Z) (s : state) :
  well_formed cfg = true →
  0 ≤ n → sizeof_float * n ≤ SIZE_MAX →
  allocated (mem s) a n = true → allocated (mem s) b n = true →
  allocated (mem s) c n = true →
  separate a b n = true → separate c a n = true → separate c b n = true →
  (Z.to_nat n < fuel)%nat →
  ∃ s1 s2,
    initialize_arrays fuel a b n s = Ok tt s1 ∧
    add_arrays_simd cfg fuel a b c n s1 = Ok tt s2 ∧
    ∀ i, 0 ≤ i < n →
      mem_load (mem s2) (c +ₚ i)
      = Some (fadd (float_of_size_t i) (float_of_size_t (n - i))).
Proof.
  intros Hwf Hn Hsz Ha Hb Hc Hab Hca Hcb Hfuel.
  destruct (init_mem_read (mem s) a b n Hab Hn) as [Hra Hrb].
  pose (s1 := State (init_mem (mem s) a b n n) (live s) (next_block s)
                    (oracle s) (stdout s) (stderr s)
                    (trace s ++ init_events a b n)).
  exists s1. eexists. split; [|split].
  - apply initialize_arrays_spec; [|done..].
    unfold sizeof_float in Hsz. lia.
  - apply (add_arrays_simd_spec a b c n _ _ s1 Hn Hsz Hra Hrb
             (allocated_init_mem _ a b n c n Hn Hc) Hca Hcb cfg fuel Hwf Hfuel).
  - intros i Hi.
    apply output_cell;
      rewrite ?length_fmap, ?length_seqZ, ?list_lookup_fmap, ?lookup_seqZ_lt,
        ?Z2Nat.id by lia; done.
Qed.

(** initialize_arrays and then add_arrays_simd, for any [n]: the state
    reached. *)
Lemma init_then_add_run (cfg : build) (fuel : nat) (a b c : ptr) (n : Z)
    (s : state) :
  well_formed cfg = true →
  0 ≤ n → sizeof_float * n ≤ SIZE_MAX →
  allocated (mem s) a n = true → allocated (mem s) b n = true →
  allocated (mem s) c n = true →
  separate a b n = true → separate c a n = true → separate c b n = true →
  (Z.to_nat n < fuel)%nat →
  ∃ s1 s2,
    initialize_arrays fuel a b n s = Ok tt s1 ∧
    add_arrays_simd cfg fuel a b c n s1 = Ok tt s2 ∧
    trace s2 = trace s ++ init_events a b n ++ add_events cfg a b c n ∧
    stdout s2 = stdout s +:+ diagnostic cfg +:+ nl ∧
    live s2 = live s ∧
    ∀ i, 0 ≤ i < n →
      mem_load (mem s2) (c +ₚ i)
      = Some (fadd (float_of_size_t i) (float_of_size_t (n - i))).
Proof.
  intros Hwf Hn Hsz Ha Hb Hc Hab Hca Hcb Hfuel.
  destruct (init_mem_read (mem s) a b n Hab Hn) as [Hra Hrb].
  pose (s1 := State (init_mem (mem s) a b n n) (live s) (next_block s)
                    (oracle s) (stdout s) (stderr s)
                    (trace s ++ init_events a b n)).
  exists s1. eexists. split; [|split; [|split; [|split; [|split]]]].
  - apply initialize_arrays_spec; [|done..].
    unfold sizeof_float in Hsz. lia.
  - apply (add_arrays_simd_spec a b c n _ _ s1 Hn Hsz Hra Hrb
             (allocated_init_mem _ a b n c n Hn Hc) Hca Hcb cfg fuel Hwf Hfuel).
  - unfold state_after, s1. cbn [trace]. by rewrite <- app_assoc.
  - reflexivity.
  - reflexivity.
  - intros i Hi.
    apply output_cell;
      rewrite ?length_fmap, ?length_seqZ, ?list_lookup_fmap, ?lookup_seqZ_lt,
        ?Z2Nat.id by lia; done.
Qed.

Lemma result_eta {A} (r : result A) (x : A) :
  value_of r = Some x → r = Ok x (run_state r).
Proof. destruct r; [|done]. by intros [= ->]. Qed.

(** The three calls of malloc in main, when they succeed. *)
Lemma main_buffers (o : list bool) :
  allocations_succeed o = true →
  ∃ sa sb s0,
    malloc (wrap (1024 * sizeof_float)) (init_state o) = Ok main_a sa ∧
    malloc (wrap (1024 * sizeof_float)) sa = Ok main_b sb ∧
    malloc (wrap (1024 * sizeof_float)) sb = Ok main_c s0 ∧
    allocated (mem s0) main_a 1024 = true ∧
    allocated (mem s0) main_b 1024 = true ∧
    allocated (mem s0) main_c 1024 = true ∧
    trace s0 = [] ∧ stdout s0 = "".
Proof.
  intros Ho.
  exists (run_state (malloc (wrap (1024 * sizeof_float)) (init_state o))),
    (run_state (malloc (wrap (1024 * sizeof_float))
       (run_state (malloc (wrap (1024 * sizeof_float)) (init_state o))))),
    (run_state (malloc (wrap (1024 * sizeof_float))
       (run_state (malloc (wrap (1024 * sizeof_float))
          (run_state (malloc (wrap (1024 * sizeof_float)) (init_state o))))))).
  destruct o as [|[] [|[] [|[] o']]];
    try (exfalso; cbv in Ho; discriminate Ho);
    (split; [|split; [|split; [|split; [|split; [|split; [|split]]]]]]);
    try apply result_eta; vm_compute; reflexivity.
Qed.

(** The run of main up to its printing loop: main goes on from the state
    [s2] its calls of initialize_arrays and add_arrays_simd on the 1024
    elements of its buffers lead to. *)
Lemma main_reaches (cfg : build) (fuel : nat) (o : list bool) :
  well_formed cfg = true → allocations_succeed o = true →
  (1024 < fuel)%nat →
  ∃ s0 s1 s2,
    initialize_arrays fuel main_a main_b 1024 s0 = Ok tt s1 ∧
    add_arrays_simd cfg fuel main_a main_b main_c 1024 s1 = Ok tt s2 ∧
    main cfg fuel (init_state o)
    = (let* _ :=
         for_loop fuel (λ i, i <? 10) (λ i, wrap (i + 1))
           (λ i,
              let* x := load (main_c +ₚ i) in
              print_out ("c[" +:+ fmt_zu i +:+ "] = " +:+ fmt_f x +:+ nl))
           0 in
       let* _ := free main_a in
       let* _ := free main_b in
       let* _ := free main_c in
       ret 0) s2 ∧
    trace s2 = init_events main_a main_b 1024
               ++ add_events cfg main_a main_b main_c 1024 ∧
    stdout s2 = diagnostic cfg +:+ nl ∧
    ∀ i, 0 ≤ i < 1024 →
      mem_load (mem s2) (main_c +ₚ i) = Some (float_of_size_t 1024).
Proof.
  intros Hwf Ho Hfuel.
  destruct (main_buffers o Ho)
    as (sa & sb & s0 & Hma & Hmb & Hmc & Ha & Hb & Hc & Htr0 & Hout0).
  assert (sizeof_float * 1024 ≤ SIZE_MAX) as Hsz by (vm_compute; discriminate).
  assert (Z.to_nat 1024 < fuel)%nat as Hfuel' by lia.
  destruct (init_then_add_run cfg fuel main_a main_b main_c 1024 s0 Hwf
              ltac:(lia) Hsz Ha Hb Hc eq_refl eq_refl eq_refl Hfuel')
    as (s1 & s2 & Hinit & Hadd & Htr & Hout & _ & Hval).
  exists s0, s1, s2. split; [exact Hinit|]. split; [exact Hadd|].
  split; [|split; [|split]].
  - unfold main. cbv zeta.
    rewrite (bind_Ok _ _ _ _ _ Hma). cbv beta.
    rewrite (bind_Ok _ _ _ _ _ Hmb). cbv beta.
    rewrite (bind_Ok _ _ _ _ _ Hmc). cbv beta.
    change (is_null main_a || is_null main_b || is_null main_c) with false.
    cbv iota.
    rewrite (bind_Ok _ _ _ _ _ Hinit). cbv beta.
    rewrite (bind_Ok _ _ _ _ _ Hadd). reflexivity.
  - rewrite Htr, Htr0. reflexivity.
  - rewrite Hout, Hout0. reflexivity.
  - intros i Hi. rewrite (Hval i Hi). f_equal. exact (sum_1024 i Hi).
Qed.

(** The whole run of main at fuel 1025: status, streams and accesses. *)
Lemma main_run_trace (cfg : build) (o : list bool) :
  well_formed cfg = true → allocations_succeed o = true →
  ∃ s', main cfg 1025 (init_state o) = Ok 0 s' ∧
        stdout s' = diagnostic cfg +:+ nl +:+ ten_lines ∧
        stderr s' = "" ∧
        trace s' = init_events main_a main_b 1024
                   ++ add_events cfg main_a main_b main_c 1024
                   ++ ((λ i, EvLoad 1 (main_c +ₚ i)) <$> seqZ 0 10).
Proof.
  intros Hwf Ho. apply outcome_trace_Some.
  destruct o as [|[] [|[] [|[] o']]];
    try (exfalso; cbv in Ho; discriminate Ho);
    (destruct cfg as [[] sse2 macro];
     [| destruct sse2; [destruct macro as [t|]; [|cbv in Hwf; discriminate Hwf] |]]);
    vm_compute; rewrite ?append_assoc; reflexivity.
Qed.

(** ** The run of the driver *)

(** C4. With [n = 1024]:
    (1) on any three buffers of 1024 floats that do not overlap,
    initialize_arrays followed by add_arrays_simd leaves [c[i] = 1024.0] at
    every [i] below 1024;
    (2) main, when its allocations succeed, runs initialize_arrays and then
    add_arrays_simd on the 1024 elements of its three buffers, which leads
    to a state [s2] where [c[i] = 1024.0] at every [i] below 1024; from
    [s2] it goes on with its printing loop and the three calls of free.  Its
    accesses are those of the two calls followed by one load of [c[i]] for
    each [i] from 0 to 9, in this order, and it exits with status 0 having
    printed the line of the build and then the ten lines
    [c[0] = 1024.000000] to [c[9] = 1024.000000], and nothing else. *)
Theorem main_prints_sums (cfg : build) (fuel : nat) (o : list bool) :
  well_formed cfg = true → allocations_succeed o = true →
  (1024 < fuel)%nat →
  (∀ (a b c : ptr) (s : state),
     allocated (mem s) a 1024 = true → allocated (mem s) b 1024 = true →
     allocated (mem s) c 1024 = true →
     separate a b 1024 = true → separate c a 1024 = true →
     separate c b 1024 = true →
     ∃ s1 s2,
       initialize_arrays fuel a b 1024 s = Ok tt s1 ∧
       add_arrays_simd cfg fuel a b c 1024 s1 = Ok tt s2 ∧
       ∀ i, 0 ≤ i < 1024 →
         mem_load (mem s2) (c +ₚ i) = Some (float_of_size_t 1024)) ∧
  ∃ s0 s1 s2 s',
    initialize_arrays fuel main_a main_b 1024 s0 = Ok tt s1 ∧
    add_arrays_simd cfg fuel main_a main_b main_c 1024 s1 = Ok tt s2 ∧
    main cfg fuel (init_state o)
    = (let* _ :=
         for_loop fuel (λ i, i <? 10) (λ i, wrap (i + 1))
           (λ i,
              let* x := load (main_c +ₚ i) in
              print_out ("c[" +:+ fmt_zu i +:+ "] = " +:+ fmt_f x +:+ nl))
           0 in
       let* _ := free main_a in
       let* _ := free main_b in
       let* _ := free main_c in
       ret 0) s2 ∧
    (∀ i, 0 ≤ i < 1024 →
       mem_load (mem s2) (main_c +ₚ i) = Some (float_of_size_t 1024)) ∧
    trace s2 = init_events main_a main_b 1024
               ++ add_events cfg main_a main_b main_c 1024 ∧
    stdout s2 = diagnostic cfg +:+ nl ∧
    main cfg fuel (init_state o) = Ok 0 s' ∧
    trace s' = trace s2 ++ ((λ i, EvLoad 1 (main_c +ₚ i)) <$> seqZ 0 10) ∧
    stdout s' = diagnostic cfg +:+ nl +:+ ten_lines.
Proof.
  intros Hwf Ho Hfuel. split.
  - intros a b c s Ha Hb Hc Hab Hca Hcb.
    assert (sizeof_float * 1024 ≤ SIZE_MAX) as Hsz by (vm_compute; discriminate).
    assert (Z.to_nat 1024 < fuel)%nat as Hfuel' by lia.
    destruct (init_then_add cfg fuel a b c 1024 s Hwf ltac:(lia) Hsz
                Ha Hb Hc Hab Hca Hcb Hfuel') as (s1 & s2 & H1 & H2 & H3).
    exists s1, s2. split; [exact H1|]. split; [exact H2|].
    intros i Hi. rewrite (H3 i Hi). f_equal. exact (sum_1024 i Hi).
  - destruct (main_reaches cfg fuel o Hwf Ho Hfuel)
      as (s0 & s1 & s2 & Hinit & Hadd & Hmain & Htr2 & Hout2 & Hval).
    destruct (main_run_trace cfg o Hwf Ho) as (s' & Hrun & Hout & _ & Htr).
    exists s0, s1, s2, s'.
    split; [exact Hinit|]. split; [exact Hadd|]. split; [exact Hmain|].
    split; [exact Hval|]. split; [exact Htr2|]. split; [exact Hout2|].
    split; [|split; [|exact Hout]].
    + apply (mono_main cfg 1025%nat fuel _ _ _ Hrun). lia.
    + rewrite Htr, Htr2. by rewrite <- app_assoc.
Qed.

Lemma main_prints_sums_witness :
  (∀ (a b c : ptr) (s : state),
     allocated (mem s) a 1024 = true → allocated (mem s) b 1024 = true →
     allocated (mem s) c 1024 = true →
     separate a b 1024 = true → separate c a 1024 = true →
     separate c b 1024 = true →
     ∃ s1 s2,
       initialize_arrays 1025 a b 1024 s = Ok tt s1 ∧
       add_arrays_simd AVX_build 1025 a b c 1024 s1 = Ok tt s2 ∧
       ∀ i, 0 ≤ i < 1024 →
         mem_load (mem s2) (c +ₚ i) = Some (float_of_size_t 1024)) ∧
  ∃ s0 s1 s2 s',
    initialize_arrays 1025 main_a main_b 1024 s0 = Ok tt s1 ∧
    add_arrays_simd AVX_build 1025 main_a main_b main_c 1024 s1 = Ok tt s2 ∧
    main AVX_build 1025 (init_state [])
    = (let* _ :=
         for_loop 1025 (λ i, i <? 10) (λ i, wrap (i + 1))
           (λ i,
              let* x := load (main_c +ₚ i) in
              print_out ("c[" +:+ fmt_zu i +:+ "] = " +:+ fmt_f x +:+ nl))
           0 in
       let* _ := free main_a in
       let* _ := free main_b in
       let* _ := free main_c in
       ret 0) s2 ∧
    (∀ i, 0 ≤ i < 1024 →
       mem_load (mem s2) (main_c +ₚ i) = Some (float_of_size_t 1024)) ∧
    trace s2 = init_events main_a main_b 1024
               ++ add_events AVX_build main_a main_b main_c 1024 ∧
    stdout s2 = diagnostic AVX_build +:+ nl ∧
    main AVX_build 1025 (init_state []) = Ok 0 s' ∧
    trace s' = trace s2 ++ ((λ i, EvLoad 1 (main_c +ₚ i)) <$> seqZ 0 10) ∧
    stdout s' = diagnostic AVX_build +:+ nl +:+ ten_lines.
Proof.
  apply (main_prints_sums AVX_build 1025 []); [reflexivity | reflexivity | lia].
Defined.

(** ** Allocation failure *)

(** C6. In a build that compiles: if one of the three allocations fails,
    main exits with status 1 with the one line [Memory allocation failed]
    on the error stream, nothing on the output stream and no access to
    memory, so neither the initialisation nor the addition was run; if all
    three succeed, main exits with status 0. *)
Theorem allocation_failure (cfg : build) (fuel : nat) (o : list bool) :
  well_formed cfg = true →
  (allocations_succeed o = false →
     ∃ s', main cfg fuel (init_state o) = Ok 1 s' ∧
           stderr s' = "Memory allocation failed" +:+ nl ∧
           stdout s' = "" ∧ trace s' = []) ∧
  (allocations_succeed o = true → (1024 < fuel)%nat →
     ∃ s', main cfg fuel (init_state o) = Ok 0 s' ∧ stderr s' = "").
Proof.
  intros Hwf. split.
  - intros Ho. destruct (main_failure cfg fuel o Ho) as (s' & ? & ? & ? & ?).
    eauto.
  - intros Ho Hfuel. destruct (main_success cfg o Hwf Ho) as (s' & Hrun & _ & Herr).
    exists s'. split; [|exact Herr].
    apply (mono_main cfg 1025%nat fuel _ _ _ Hrun). lia.
Qed.

Lemma allocation_failure_witness :
  (allocations_succeed [true; false] = false →
     ∃ s', main scalar_build 5 (init_state [true; false]) = Ok 1 s' ∧
           stderr s' = "Memory allocation failed" +:+ nl ∧
           stdout s' = "" ∧ trace s' = []) ∧
  (allocations_succeed [true; false] = true → (1024 < 5)%nat →
     ∃ s', main scalar_build 5 (init_state [true; false]) = Ok 0 s' ∧
           stderr s' = "").
Proof. apply (allocation_failure scalar_build 5 [true; false]). reflexivity. Defined.

(** * Further properties of the code *)

(** ** add_arrays_simd in place *)

Lemma in_place_or_apart_spec c p n :
  in_place_or_apart c p n = true ↔ c = p ∨ separate c p n = true.
Proof.
  unfold in_place_or_apart. by rewrite orb_true_iff, bool_decide_eq_true.
Qed.

(** A cell of [p] at or beyond the part of [c] written so far still holds
    what it held. *)
Lemma unwritten_lookup (m : memory) c p n (l : list float) i :
  in_place_or_apart c p n = true →
  Z.of_nat (length l) ≤ i → 0 ≤ i < n → Z.of_nat (length l) ≤ n →
  write_cells m c l !! (p +ₚ i) = m !! (p +ₚ i).
Proof.
  intros [->|Hsep%separate_spec]%in_place_or_apart_spec Hl Hi Hln;
    apply write_cells_lookup_out; unfold ptr_add; simpl; lia.
Qed.

Section add_arrays_in_place.
Variables (a b c : ptr) (n : Z) (va vb : list float) (s0 : state).
Hypothesis Hn : 0 ≤ n.
Hypothesis Hsize : sizeof_float * n ≤ SIZE_MAX.
Hypothesis Ha : mem_load_vec (mem s0) a n = Some va.
Hypothesis Hb : mem_load_vec (mem s0) b n = Some vb.
Hypothesis Hc : allocated (mem s0) c n = true.
Hypothesis Hca : in_place_or_apart c a n = true.
Hypothesis Hcb : in_place_or_apart c b n = true.

Local Abbreviation sums := (zip_with fadd va vb).

Local Abbreviation after := (state_after c va vb s0).

(** The elements not yet overwritten are read as they were. *)
Lemma load_ahead (p : ptr) (v : list float) (i w : Z) :
  mem_load_vec (mem s0) p n = Some v → in_place_or_apart c p n = true →
  0 ≤ i → 0 ≤ w → i + w ≤ n →
  mem_load_vec (write_cells (mem s0) c (take (Z.to_nat i) sums)) (p +ₚ i) w
  = Some (take (Z.to_nat w) (drop (Z.to_nat i) v)).
Proof using Ha Hb.
  intros Hv Hsep Hi Hw Hiw. apply mem_load_vec_spec in Hv as [Hlen Hv].
  pose proof (length_sums a b n va vb s0 Ha Hb) as Hls.
  apply mem_load_vec_spec. split.
  - rewrite length_take, length_drop. lia.
  - intros j x [Hx Hj]%lookup_take_Some. rewrite lookup_drop in Hx.
    apply Hv in Hx. unfold mem_load in *.
    rewrite ptr_add_add, (unwritten_lookup _ c p n); [|done|..].
    + by replace (i + Z.of_nat j) with (Z.of_nat (Z.to_nat i + j)) by lia.
    + rewrite length_take. lia.
    + lia.
    + rewrite length_take. lia.
Qed.

Lemma load_cell_ahead (p : ptr) (v : list float) (i : Z) x :
  mem_load_vec (mem s0) p n = Some v → in_place_or_apart c p n = true →
  0 ≤ i → v !! Z.to_nat i = Some x →
  mem_load (write_cells (mem s0) c (take (Z.to_nat i) sums)) (p +ₚ i) = Some x.
Proof using Ha Hb.
  intros Hv Hsep Hi Hx. apply mem_load_vec_spec in Hv as [Hlen Hv].
  pose proof (length_sums a b n va vb s0 Ha Hb) as Hls.
  pose proof (lookup_lt_Some _ _ _ Hx) as Hlt.
  apply Hv in Hx. rewrite Z2Nat.id in Hx by done.
  unfold mem_load in *.
  rewrite (unwritten_lookup _ c p n); [done|done|..]; rewrite ?length_take; lia.
Qed.

Lemma chunk_step_ip (w k : Z) (out : string) (evs : list event) :
  0 < w → 0 ≤ k → w * k + w ≤ n →
  (let* x := vec_load w (a +ₚ w * k) in
   let* y := vec_load w (b +ₚ w * k) in
   vec_store w (c +ₚ w * k) (zip_with fadd x y)) (after out (w * k) evs)
  = Ok tt (after out (w * k + w)
             (evs ++ [EvLoad w (a +ₚ w * k); EvLoad w (b +ₚ w * k);
                      EvStore w (c +ₚ w * k)])).
Proof using All.
  intros Hw Hk Hkw.
  pose proof (length_va a n va s0 Ha) as Hla.
  pose proof (length_vb b n vb s0 Hb) as Hlb.
  pose proof (length_sums a b n va vb s0 Ha Hb) as Hls.
  erewrite bind_Ok; [|apply vec_load_Ok, (load_ahead a va); [done..|nia|lia|lia]].
  erewrite bind_Ok; [|apply vec_load_Ok, (load_ahead b vb); [done..|nia|lia|lia]].
  rewrite vec_store_Ok.
  - unfold log, set_mem, state_after. cbn [mem live next_block oracle stdout stderr trace].
    f_equal. f_equal.
    + rewrite (take_sums_chunk va vb), write_cells_app by nia. f_equal.
      rewrite length_take_le by nia.
      f_equal. nia.
    + by rewrite <- !app_assoc.
  - cbn [log mem state_after]. apply (alloc_through c n s0 Hc); [nia|].
    rewrite length_zip_with, !length_take, !length_drop. nia.
Qed.

Lemma scalar_step_ip (i : Z) (out : string) (evs : list event) :
  0 ≤ i < n →
  add_one a b c i (after out i evs)
  = Ok tt (after out (i + 1)
             (evs ++ [EvLoad 1 (a +ₚ i); EvLoad 1 (b +ₚ i); EvStore 1 (c +ₚ i)])).
Proof using All.
  intros Hi. unfold add_one.
  pose proof (length_va a n va s0 Ha) as Hla.
  pose proof (length_vb b n vb s0 Hb) as Hlb.
  pose proof (length_sums a b n va vb s0 Ha Hb) as Hls.
  destruct (lookup_lt_is_Some_2 va (Z.to_nat i)) as [x Hx]; [lia|].
  destruct (lookup_lt_is_Some_2 vb (Z.to_nat i)) as [y Hy]; [lia|].
  erewrite bind_Ok; [|apply load_Ok, (load_cell_ahead a va); [done|done|lia|done]].
  erewrite bind_Ok; [|apply load_Ok, (load_cell_ahead b vb); [done|done|lia|done]].
  rewrite store_Ok.
  - unfold log, set_mem, state_after.
    cbn [mem live next_block oracle stdout stderr trace].
    f_equal. f_equal.
    + replace (Z.to_nat (i + 1)) with (S (Z.to_nat i)) by lia.
      rewrite (take_S_r _ _ (fadd x y)), write_cells_app.
      * rewrite length_take_le by lia.
        simpl. by rewrite Z2Nat.id by lia.
      * apply lookup_zip_with_Some. eauto.
    + by rewrite <- !app_assoc.
  - cbn [log mem state_after]. apply write_cells_is_Some.
    rewrite allocated_spec in Hc. apply Hc. lia.
Qed.

Lemma chunk_loop_ip (w : Z) (fuel : nat) (out : string) :
  0 < w ≤ 8 → (Z.to_nat n < fuel)%nat →
  for_loop fuel (λ i, wrap (i + w) <=? n) (λ i, wrap (i + w))
    (λ i,
       let* x := vec_load w (a +ₚ i) in
       let* y := vec_load w (b +ₚ i) in
       vec_store w (c +ₚ i) (zip_with fadd x y))
    0 (after out 0 [])
  = Ok (n / w * w)
       (after out (n / w * w) (chunk_events w a b c (n / w))).
Proof using All.
  intros Hw Hfuel. pose proof (size_bound n Hn Hsize) as Hb8.
  destruct (for_loop_rule
    (λ i s, ∃ k, 0 ≤ k ∧ i = w * k ∧ w * k ≤ n ∧
                 s = after out (w * k) (chunk_events w a b c k))
    (λ i, Z.to_nat (n - i))
    (λ i, wrap (i + w) <=? n) (λ i, wrap (i + w))
    (λ i,
       let* x := vec_load w (a +ₚ i) in
       let* y := vec_load w (b +ₚ i) in
       vec_store w (c +ₚ i) (zip_with fadd x y)))
    with (fuel := fuel) (i := 0) (s := after out 0 [])
    as (j & s' & Hrun & (k & Hk & -> & Hkn & ->) & Hexit).
  - intros i s (k & Hk & -> & Hkn & ->) Hcond.
    rewrite wrap_small in * by nia. apply Z.leb_le in Hcond.
    eexists. split; [by apply chunk_step_ip; lia|]. split; [|lia].
    exists (k + 1). rewrite chunk_events_succ by done.
    repeat split; [lia..|]. f_equal. lia.
  - exists 0. rewrite Z.mul_0_r. repeat split; lia.
  - lia.
  - rewrite wrap_small in Hexit by nia. apply Z.leb_gt in Hexit.
    assert (k = n / w) as -> by (apply Z.div_unique with (n - w * k); lia).
    rewrite Hrun. by rewrite (Z.mul_comm w).
Qed.

Lemma scalar_loop_ip (fuel : nat) (out : string) (i0 : Z) (evs : list event) :
  0 ≤ i0 ≤ n → (Z.to_nat n < fuel)%nat →
  for_loop fuel (λ i, i <? n) (λ i, wrap (i + 1)) (add_one a b c)
    i0 (after out i0 evs)
  = Ok n (after out n (evs ++ scalar_events a b c i0 (n - i0))).
Proof using All.
  intros Hi0 Hfuel. pose proof (size_bound n Hn Hsize) as Hb8.
  destruct (for_loop_rule
    (λ i s, i0 ≤ i ≤ n ∧
            s = after out i (evs ++ scalar_events a b c i0 (i - i0)))
    (λ i, Z.to_nat (n - i))
    (λ i, i <? n) (λ i, wrap (i + 1)) (add_one a b c))
    with (fuel := fuel) (i := i0) (s := after out i0 evs)
    as (j & s' & Hrun & (Hj & ->) & Hexit).
  - intros i s (Hi & ->) Hcond. apply Z.ltb_lt in Hcond.
    rewrite wrap_small by lia.
    eexists. split; [by apply scalar_step_ip; lia|]. split; [|lia].
    split; [lia|]. f_equal.
    replace (i + 1 - i0) with (i - i0 + 1) by lia.
    rewrite scalar_events_succ, <- app_assoc by lia.
    by replace (i0 + (i - i0)) with i by lia.
  - split; [lia|]. rewrite Z.sub_diag. unfold scalar_events.
    rewrite seqZ_nil by lia. simpl. by rewrite app_nil_r.
  - lia.
  - apply Z.ltb_ge in Hexit. assert (j = n) as -> by lia. done.
Qed.

(** add_arrays_simd when [c] may be [a] or [b] itself. *)
Lemma add_arrays_simd_spec_ip (cfg : build) (fuel : nat) :
  well_formed cfg = true → (Z.to_nat n < fuel)%nat →
  add_arrays_simd cfg fuel a b c n s0
  = Ok tt (after (diagnostic cfg +:+ nl) n (add_events cfg a b c n)).
Proof using All.
  intros Hwf Hfuel. unfold add_arrays_simd, well_formed, diagnostic, add_events,
    chunk_size in *.
  assert (∀ w, 0 < w → n - n / w * w = n mod w) as Hmod
    by (intros w Hw; rewrite Z.mod_eq by lia; lia).
  destruct (__AVX__ cfg); [|destruct (__SSE2__ cfg)].
  - erewrite bind_Ok by apply puts_after.
    erewrite bind_Ok by (apply (chunk_loop_ip 8); [lia|done]).
    erewrite bind_Ok.
    2:{ apply scalar_loop_ip; [|done].
        pose proof (Z.mul_div_le n 8). pose proof (Z.div_pos n 8). lia. }
    unfold ret. by rewrite Hmod.
  - destruct (SSE2 cfg) as [t|]; [|done].
    erewrite bind_Ok by apply puts_after.
    erewrite bind_Ok by (apply (chunk_loop_ip 4); [lia|done]).
    erewrite bind_Ok.
    2:{ apply scalar_loop_ip; [|done].
        pose proof (Z.mul_div_le n 4). pose proof (Z.div_pos n 4). lia. }
    unfold ret. by rewrite Hmod.
  - erewrite bind_Ok by apply puts_after.
    erewrite bind_Ok by (apply scalar_loop_ip; [lia|done]).
    unfold ret. simpl. by rewrite Z.sub_0_r.
Qed.
End add_arrays_in_place.

(** X1. add_arrays_simd may be used in place.  When [c] is [a] itself, or
    [b] itself, or both, or overlaps neither, every build that compiles
    leaves in [c] the sums of the elements [a] and [b] held before the
    call. *)
Theorem add_arrays_simd_in_place (cfg : build) (fuel : nat) (a b c : ptr) (n : Z)
    (va vb : list float) (s : state) :
  well_formed cfg = true →
  0 ≤ n → sizeof_float * n ≤ SIZE_MAX →
  mem_load_vec (mem s) a n = Some va →
  mem_load_vec (mem s) b n = Some vb →
  allocated (mem s) c n = true →
  in_place_or_apart c a n = true → in_place_or_apart c b n = true →
  (Z.to_nat n < fuel)%nat →
  ∃ s', add_arrays_simd cfg fuel a b c n s = Ok tt s' ∧
        mem_load_vec (mem s') c n = Some (zip_with fadd va vb).
Proof.
  intros Hwf Hn Hsz Ha Hb Hc Hca Hcb Hfuel. eexists. split.
  { by apply (add_arrays_simd_spec_ip a b c n va vb s). }
  apply mem_load_vec_spec in Ha as [Hla _], Hb as [Hlb _].
  unfold state_after. cbn [mem].
  rewrite take_ge by (rewrite length_zip_with; lia).
  apply write_cells_read. rewrite length_zip_with. lia.
Qed.

Lemma add_arrays_simd_in_place_witness :
  ∃ s', add_arrays_simd AVX_build 10 demo_a demo_b demo_a 9 demo_state = Ok tt s' ∧
        mem_load_vec (mem s') demo_a 9 = Some (zip_with fadd demo_va demo_vb).
Proof.
  apply (add_arrays_simd_in_place AVX_build 10 demo_a demo_b demo_a 9
           demo_va demo_vb demo_state);
    [reflexivity | lia | vm_compute; discriminate | vm_compute; reflexivity
    | vm_compute; reflexivity | reflexivity | reflexivity | reflexivity | lia].
Defined.

(** ** What add_arrays_simd prints and what it leaves alone *)

(** X2. Every call of add_arrays_simd, also one with [n = 0], appends
    exactly one line to the output stream, the line of the build, and
    nothing to the error stream; it allocates and frees nothing. *)
Theorem add_arrays_simd_one_line (cfg : build) (fuel : nat) (a b c : ptr) (n : Z)
    (va vb : list float) (s : state) :
  well_formed cfg = true →
  0 ≤ n → sizeof_float * n ≤ SIZE_MAX →
  mem_load_vec (mem s) a n = Some va →
  mem_load_vec (mem s) b n = Some vb →
  allocated (mem s) c n = true →
  in_place_or_apart c a n = true → in_place_or_apart c b n = true →
  (Z.to_nat n < fuel)%nat →
  ∃ s', add_arrays_simd cfg fuel a b c n s = Ok tt s' ∧
        stdout s' = stdout s +:+
          (if __AVX__ cfg then "AVX is detected."
           else if __SSE2__ cfg then default "" (SSE2 cfg) +:+ "is detected."
           else "no SIMD extension is detected.") +:+ nl ∧
        stderr s' = stderr s ∧
        live s' = live s ∧ next_block s' = next_block s ∧ oracle s' = oracle s.
Proof.
  intros Hwf Hn Hsz Ha Hb Hc Hca Hcb Hfuel. eexists. split.
  { by apply (add_arrays_simd_spec_ip a b c n va vb s). }
  done.
Qed.

Lemma add_arrays_simd_one_line_witness :
  ∃ s', add_arrays_simd scalar_build 1 demo_a demo_b demo_c 0 demo_state = Ok tt s' ∧
        stdout s' = stdout demo_state +:+ "no SIMD extension is detected." +:+ nl ∧
        stderr s' = stderr demo_state ∧
        live s' = live demo_state ∧ next_block s' = next_block demo_state ∧
        oracle s' = oracle demo_state.
Proof.
  apply (add_arrays_simd_one_line scalar_build 1 demo_a demo_b demo_c 0 [] []
           demo_state);
    [reflexivity | lia | vm_compute; discriminate | reflexivity | reflexivity
    | reflexivity | reflexivity | reflexivity | lia].
Defined.

(** ** The number of accesses *)

Lemma length_chunk_events w a b c k :
  length (chunk_events w a b c k) = Z.to_nat (3 * k).
Proof.
  destruct (Z.le_gt_cases 0 k) as [Hk|Hk].
  - pattern k. apply natlike_ind; [done| |done]. clear k Hk. intros k Hk IH.
    unfold Z.succ. rewrite chunk_events_succ, length_app, IH by done. simpl. lia.
  - unfold chunk_events. rewrite seqZ_nil by lia. simpl. lia.
Qed.

Lemma length_scalar_events a b c i k :
  length (scalar_events a b c i k) = Z.to_nat (3 * k).
Proof.
  destruct (Z.le_gt_cases 0 k) as [Hk|Hk].
  - pattern k. apply natlike_ind; [done| |done]. clear k Hk. intros k Hk IH.
    unfold Z.succ. rewrite scalar_events_succ, length_app, IH by done. simpl. lia.
  - unfold scalar_events. rewrite seqZ_nil by lia. simpl. lia.
Qed.

(** X3. The accesses of a call on [n] elements are exactly [add_events]:
    round after round a load in [a], a load in [b] and a store in [c] at the
    same index, first the rounds of the vector loop and then those of the
    element-wise loop.  That is three accesses per round and
    [n / 8 + n mod 8] rounds in the 8-lane build, [n / 4 + n mod 4] in the
    4-lane build and [n] in the scalar build, whether or not the buffers
    overlap. *)
Theorem add_arrays_simd_access_count (cfg : build) (fuel : nat) (a b c : ptr)
    (n : Z) (va vb : list float) (s : state) :
  well_formed cfg = true →
  0 ≤ n → sizeof_float * n ≤ SIZE_MAX →
  mem_load_vec (mem s) a n = Some va →
  mem_load_vec (mem s) b n = Some vb →
  allocated (mem s) c n = true →
  (Z.to_nat n < fuel)%nat →
  ∃ s', add_arrays_simd cfg fuel a b c n s = Ok tt s' ∧
    trace s' = trace s ++ add_events cfg a b c n ∧
    add_events cfg a b c n
    = match chunk_size cfg with
      | Some w =>
          mjoin ((λ j, [EvLoad w (a +ₚ w * j); EvLoad w (b +ₚ w * j);
                        EvStore w (c +ₚ w * j)]) <$> seqZ 0 (n / w))
          ++ mjoin ((λ j, [EvLoad 1 (a +ₚ j); EvLoad 1 (b +ₚ j);
                           EvStore 1 (c +ₚ j)]) <$> seqZ (n / w * w) (n mod w))
      | None =>
          mjoin ((λ j, [EvLoad 1 (a +ₚ j); EvLoad 1 (b +ₚ j);
                        EvStore 1 (c +ₚ j)]) <$> seqZ 0 n)
      end ∧
    Z.of_nat (length (add_events cfg a b c n)) = 3 * rounds cfg n ∧
    0 ≤ rounds cfg n ≤ n.
Proof.
  intros Hwf Hn Hsz Ha Hb Hc Hfuel.
  destruct (add_arrays_simd_trace a b c n va vb (mem s) Hn Hsz Ha Hb Hc cfg fuel s)
    as (s' & Hrun & Htr); [done..|].
  exists s'. split; [done|]. split; [done|]. split; [done|].
  unfold add_events, rounds, chunk_size.
  assert (∀ w, 0 < w →
    Z.of_nat (length (chunk_events w a b c (n / w)
                      ++ scalar_events a b c (n / w * w) (n mod w)))
    = 3 * (n / w + n mod w) ∧ 0 ≤ n / w + n mod w ≤ n) as Hvec.
  { intros w Hw. rewrite length_app, length_chunk_events, length_scalar_events.
    pose proof (Z.div_pos n w Hn Hw). pose proof (Z.mod_pos_bound n w Hw).
    pose proof (Z.div_mod n w ltac:(lia)). split; [lia|nia]. }
  destruct (__AVX__ cfg); [by apply Hvec|].
  destruct (__SSE2__ cfg); [by apply Hvec|].
  rewrite length_scalar_events. lia.
Qed.

Lemma add_arrays_simd_access_count_witness :
  ∃ s', add_arrays_simd AVX_build 10 demo_a demo_b demo_c 9 demo_state = Ok tt s' ∧
    trace s' = trace demo_state ++ add_events AVX_build demo_a demo_b demo_c 9 ∧
    add_events AVX_build demo_a demo_b demo_c 9
    = match chunk_size AVX_build with
      | Some w =>
          mjoin ((λ j, [EvLoad w (demo_a +ₚ w * j); EvLoad w (demo_b +ₚ w * j);
                        EvStore w (demo_c +ₚ w * j)]) <$> seqZ 0 (9 / w))
          ++ mjoin ((λ j, [EvLoad 1 (demo_a +ₚ j); EvLoad 1 (demo_b +ₚ j);
                           EvStore 1 (demo_c +ₚ j)])
                      <$> seqZ (9 / w * w) (9 mod w))
      | None =>
          mjoin ((λ j, [EvLoad 1 (demo_a +ₚ j); EvLoad 1 (demo_b +ₚ j);
                        EvStore 1 (demo_c +ₚ j)]) <$> seqZ 0 9)
      end ∧
    Z.of_nat (length (add_events AVX_build demo_a demo_b demo_c 9))
    = 3 * rounds AVX_build 9 ∧
    0 ≤ rounds AVX_build 9 ≤ 9.
Proof.
  apply (add_arrays_simd_access_count AVX_build 10 demo_a demo_b demo_c 9
           demo_va demo_vb demo_state);
    [reflexivity | lia | vm_compute; discriminate | vm_compute; reflexivity
    | vm_compute; reflexivity | reflexivity | lia].
Defined.

(** ** initialize_arrays: what it touches, and aliased arguments *)

Lemma in_range_cell base n q :
  in_range base n 1 q = false →
  ∀ j, 0 ≤ j < n → base +ₚ j ≠ q.
Proof.
  intros Hout j Hj <-. rewrite in_range_self in Hout by lia. done.
Qed.

Lemma init_mem_lookup_out m a b n k q :
  0 ≤ k ≤ n → in_range a n 1 q = false → in_range b n 1 q = false →
  init_mem m a b n k !! q = m !! q.
Proof.
  intros [Hk Hkn] Ha Hb. revert Hkn. pattern k. apply natlike_ind; [| |done].
  - done.
  - clear k Hk. intros k Hk IH Hkn. unfold Z.succ.
    rewrite init_mem_succ by done.
    rewrite !lookup_insert_ne by (apply in_range_cell with n; [done|lia]).
    apply IH. lia.
Qed.

Lemma init_events_stores a b k :
  Forall (λ e, ∃ p, e = EvStore 1 p) (init_events a b k) ∧
  length (init_events a b k) = Z.to_nat (2 * k).
Proof.
  destruct (Z.le_gt_cases 0 k) as [Hk|Hk].
  - pattern k. apply natlike_ind; [| |done].
    + split; [apply Forall_nil_2|done].
    + clear k Hk. intros k Hk [IH1 IH2]. unfold Z.succ.
      rewrite init_events_succ, length_app, IH2 by done. split; [|simpl; lia].
      apply Forall_app. split; [done|].
      repeat first [apply List.Forall_nil | apply List.Forall_cons]; eauto.
  - unfold init_events. rewrite seqZ_nil by lia. split; [apply Forall_nil_2|].
    simpl. lia.
Qed.

(** X4. initialize_arrays needs only that the two buffers are allocated
    (their cells may be uninitialised, and they may overlap).  It makes [2 n]
    accesses, all of them scalar stores, prints nothing, and changes no cell
    outside the first [n] elements of [a] and of [b]. *)
Theorem initialize_arrays_frame (fuel : nat) (a b : ptr) (n : Z) (s : state) :
  0 ≤ n ≤ SIZE_MAX →
  allocated (mem s) a n = true → allocated (mem s) b n = true →
  (Z.to_nat n < fuel)%nat →
  ∃ s' evs, initialize_arrays fuel a b n s = Ok tt s' ∧
    trace s' = trace s ++ evs ∧
    Forall (λ e, ∃ p, e = EvStore 1 p) evs ∧
    Z.of_nat (length evs) = 2 * n ∧
    stdout s' = stdout s ∧ stderr s' = stderr s ∧
    ∀ q : ptr, in_range a n 1 q = false → in_range b n 1 q = false →
      mem s' !! q = mem s !! q.
Proof.
  intros Hn Ha Hb Hfuel. eexists. exists (init_events a b n). split.
  { by apply initialize_arrays_spec. }
  destruct (init_events_stores a b n) as [Hst Hlen].
  cbn [trace stdout stderr mem]. split; [done|]. split; [done|].
  split; [lia|]. split; [done|]. split; [done|].
  intros q Hqa Hqb. apply init_mem_lookup_out; [lia|done..].
Qed.

Lemma initialize_arrays_frame_witness :
  ∃ s' evs, initialize_arrays 10 demo_a demo_b 9 demo_state = Ok tt s' ∧
    trace s' = trace demo_state ++ evs ∧
    Forall (λ e, ∃ p, e = EvStore 1 p) evs ∧
    Z.of_nat (length evs) = 2 * 9 ∧
    stdout s' = stdout demo_state ∧ stderr s' = stderr demo_state ∧
    ∀ q : ptr, in_range demo_a 9 1 q = false → in_range demo_b 9 1 q = false →
      mem s' !! q = mem demo_state !! q.
Proof.
  apply (initialize_arrays_frame 10 demo_a demo_b 9 demo_state);
    [vm_compute; split; discriminate | reflexivity | reflexivity | lia].
Defined.

Lemma init_mem_lookup_same m a n k :
  0 ≤ k ≤ n →
  ∀ j, 0 ≤ j < k →
    init_mem m a a n k !! (a +ₚ j) = Some (Some (float_of_size_t (n - j))).
Proof.
  intros [Hk Hkn]. revert Hkn. pattern k. apply natlike_ind; [| |done].
  - intros _ j Hj. lia.
  - clear k Hk. intros k Hk IH Hkn j Hj. unfold Z.succ.
    rewrite init_mem_succ by done.
    destruct (decide (j = k)) as [->|Hne].
    + apply lookup_insert_eq.
    + rewrite !lookup_insert_ne by (intros ?%ptr_add_inj; lia).
      apply IH; lia.
Qed.

(** X5. Called with the same buffer for both arguments, initialize_arrays
    leaves the second pattern in it: [a[i] = (float)(n - i)], since the
    store to [b[i]] follows the store to [a[i]] in each round. *)
Theorem initialize_arrays_aliased (fuel : nat) (a : ptr) (n : Z) (s : state) :
  0 ≤ n ≤ SIZE_MAX →
  allocated (mem s) a n = true →
  (Z.to_nat n < fuel)%nat →
  ∃ s', initialize_arrays fuel a a n s = Ok tt s' ∧
    ∀ i, 0 ≤ i < n →
      mem_load (mem s') (a +ₚ i) = Some (float_of_size_t (n - i)).
Proof.
  intros Hn Ha Hfuel. eexists. split.
  { by apply initialize_arrays_spec. }
  intros i Hi. cbn [mem]. unfold mem_load.
  by rewrite (init_mem_lookup_same (mem s) a n n ltac:(lia) i Hi).
Qed.

Lemma initialize_arrays_aliased_witness :
  ∃ s', initialize_arrays 10 demo_c demo_c 9 demo_state = Ok tt s' ∧
    ∀ i, 0 ≤ i < 9 →
      mem_load (mem s') (demo_c +ₚ i) = Some (float_of_size_t (9 - i)).
Proof.
  apply (initialize_arrays_aliased 10 demo_c 9 demo_state);
    [vm_compute; split; discriminate | reflexivity | lia].
Defined.

(** ** What main leaves allocated *)

Lemma leftover_Some r n k :
  leftover r = Some (n, k) →
  ∃ x s', r = Ok x s' ∧ size (mem s') = n ∧ size (live s') = k.
Proof. destruct r as [y s'|e]; [|done]. intros [= <- <-]. eauto. Qed.

(** X6. When its three allocations succeed, main frees each buffer once:
    the run reaches its end without an invalid free, and no cell and no
    block is left allocated. *)
Theorem main_releases_buffers (cfg : build) (fuel : nat) (o : list bool) :
  well_formed cfg = true → allocations_succeed o = true →
  (1024 < fuel)%nat →
  ∃ s', main cfg fuel (init_state o) = Ok 0 s' ∧ mem s' = ∅ ∧ live s' = ∅.
Proof.
  intros Hwf Ho Hfuel.
  destruct (main_success cfg o Hwf Ho) as (s' & Hrun & _).
  assert (leftover (main cfg 1025 (init_state o)) = Some (0, 0)%nat) as Hleft.
  { clear s' Hrun.
    destruct o as [|[] [|[] [|[] o']]];
      try (exfalso; cbv in Ho; discriminate Ho);
      (destruct cfg as [[] sse2 macro];
       [| destruct sse2;
          [destruct macro as [t|]; [|cbv in Hwf; discriminate Hwf] |]]);
      vm_compute; reflexivity. }
  apply leftover_Some in Hleft as (x & s'' & Hrun' & Hmem & Hlive).
  rewrite Hrun in Hrun'. injection Hrun' as _ <-.
  exists s'. split; [|split].
  - apply (mono_main cfg 1025%nat fuel _ _ _ Hrun). lia.
  - by apply map_size_empty_iff.
  - by apply size_empty_iff, leibniz_equiv_iff in Hlive.
Qed.

Lemma main_releases_buffers_witness :
  ∃ s', main scalar_build 1025 (init_state [true; true; true]) = Ok 0 s' ∧
        mem s' = ∅ ∧ live s' = ∅.
Proof.
  apply (main_releases_buffers scalar_build 1025 [true; true; true]);
    [reflexivity | reflexivity | lia].
Defined.

(** X7. When one of the three allocations fails, main returns without
    freeing the buffers it did get: each successful allocation leaves one
    live block of 1024 cells behind. *)
Theorem main_leaks_on_failure (cfg : build) (fuel : nat) (o : list bool) :
  allocations_succeed o = false →
  ∃ s', main cfg fuel (init_state o) = Ok 1 s' ∧
        size (live s') = successes o ∧
        size (mem s') = (1024 * successes o)%nat ∧
        (successes o ≤ 2)%nat.
Proof.
  intros Ho.
  assert (leftover (main cfg fuel (init_state o))
          = Some ((1024 * successes o)%nat, successes o) ∧ (successes o ≤ 2)%nat)
    as [Hleft Hle].
  { destruct o as [|[] [|[] [|[] o']]];
      try (exfalso; cbv in Ho; discriminate Ho);
      (split; [vm_compute; reflexivity | cbv; lia]). }
  destruct (main_failure cfg fuel o Ho) as (s' & Hrun & _).
  apply leftover_Some in Hleft as (x & s'' & Hrun' & Hmem & Hlive).
  rewrite Hrun in Hrun'. injection Hrun' as _ <-. eauto.
Qed.

Lemma main_leaks_on_failure_witness :
  ∃ s', main AVX_build 0 (init_state [true; true; false]) = Ok 1 s' ∧
        size (live s') = successes [true; true; false] ∧
        size (mem s') = (1024 * successes [true; true; false])%nat ∧
        (successes [true; true; false] ≤ 2)%nat.
Proof.
  apply (main_leaks_on_failure AVX_build 0 [true; true; false]). reflexivity.
Defined.

(** ** add_vectors of the README *)

(** A loop whose body fails with [e] before the guard turns false ends
    with [e]. *)
Lemma for_loop_rule_err (I : Z → state → Prop) (μ : Z → nat) cond next body e :
  (∀ i s, I i s →
     cond i = true ∧
     (body i s = Err e ∨
      ∃ s', body i s = Ok tt s' ∧ I (next i) s' ∧ (μ (next i) < μ i)%nat)) →
  ∀ fuel i s, I i s → (μ i < fuel)%nat →
  for_loop fuel cond next body i s = Err e.
Proof.
  intros Hstep fuel. induction fuel as [|fuel IH]; intros i s HI Hfuel; [lia|].
  simpl. destruct (Hstep i s HI) as [-> [Hb|(s' & Hb & HI' & Hμ)]].
  - unfold bind. by rewrite Hb.
  - rewrite (bind_Ok _ _ _ _ _ Hb). apply IH; [done | lia].
Qed.

Lemma append_nil_r (t : string) : t +:+ "" = t.
Proof.
  induction t as [|ch t IH]; [reflexivity|].
  change (String ch (t +:+ "") = String ch t). by rewrite IH.
Qed.

Lemma state_after_start c va vb s : state_after c va vb s "" 0 [] = s.
Proof.
  destruct s. unfold state_after. simpl. by rewrite append_nil_r, app_nil_r.
Qed.

(** A round of add_vectors is a round of the 4-lane loop followed by the
    increment of the [int]. *)
Lemma add_vectors_round a b c i s :
  (let* va := _mm_loadu_ps (a +ₚ i) in
   let* vb := _mm_loadu_ps (b +ₚ i) in
   let vc := _mm_add_ps va vb in
   let* _ := _mm_storeu_ps (c +ₚ i) vc in
   if INT_MAX <? i + 4 then raise Undefined else ret tt) s
  = match (let* x := vec_load 4 (a +ₚ i) in
           let* y := vec_load 4 (b +ₚ i) in
           vec_store 4 (c +ₚ i) (zip_with fadd x y)) s with
    | Ok _ s' => if INT_MAX <? i + 4 then Err Undefined else Ok tt s'
    | Err e => Err e
    end.
Proof.
  unfold bind, _mm_loadu_ps, _mm_storeu_ps, _mm_add_ps.
  destruct (vec_load 4 (a +ₚ i) s) as [x s1|]; [|done].
  destruct (vec_load 4 (b +ₚ i) s1) as [y s2|]; [|done].
  destruct (vec_store 4 (c +ₚ i) (zip_with fadd x y) s2) as [[] s3|]; [|done].
  by destruct (INT_MAX <? i + 4).
Qed.

Lemma int_bounds : INT_MAX = 2147483647 ∧ SIZE_MAX = 18446744073709551615.
Proof. split; reflexivity. Qed.

(** X8. add_vectors is right when [n] is a multiple of 4 (0 included): it
    returns and leaves [c[i] = a[i] + b[i]] at every [i] below [n], also in
    place. *)
Theorem add_vectors_multiple_of_4 (fuel : nat) (a b c : ptr) (n : Z)
    (va vb : list float) (s : state) :
  0 ≤ n ≤ INT_MAX → n mod 4 = 0 →
  mem_load_vec (mem s) a n = Some va →
  mem_load_vec (mem s) b n = Some vb →
  allocated (mem s) c n = true →
  in_place_or_apart c a n = true → in_place_or_apart c b n = true →
  (Z.to_nat n < fuel)%nat →
  ∃ s', add_vectors fuel a b c n s = Ok tt s' ∧
        mem_load_vec (mem s') c n = Some (zip_with fadd va vb).
Proof.
  intros Hn Hmod Ha Hb Hc Hca Hcb Hfuel. destruct int_bounds as [Himax Hsmax].
  assert (sizeof_float * n ≤ SIZE_MAX) as Hsz by (unfold sizeof_float; lia).
  unfold add_vectors.
  destruct (for_loop_rule
    (λ i s', ∃ k, 0 ≤ k ∧ i = 4 * k ∧ 4 * k ≤ n ∧
                  s' = state_after c va vb s "" (4 * k) (chunk_events 4 a b c k))
    (λ i, Z.to_nat (n - i))
    (λ i, i <? n) (λ i, i + 4)
    (λ i,
       let* va := _mm_loadu_ps (a +ₚ i) in
       let* vb := _mm_loadu_ps (b +ₚ i) in
       let vc := _mm_add_ps va vb in
       let* _ := _mm_storeu_ps (c +ₚ i) vc in
       if INT_MAX <? i + 4 then raise Undefined else ret tt))
    with (fuel := fuel) (i := 0) (s := s)
    as (j & s' & Hrun & (k & Hk & -> & Hkn & ->) & Hexit).
  - intros i s1 (k & Hk & -> & Hkn & ->) Hcond. apply Z.ltb_lt in Hcond.
    assert (4 * k + 4 ≤ n) as Hnext.
    { apply Z.mod_divide in Hmod as [q ->]; lia. }
    eexists. split; [|split; [|lia]].
    + rewrite add_vectors_round.
      rewrite (chunk_step_ip a b c n va vb s) by (done || lia).
      by rewrite (proj2 (Z.ltb_ge _ _)) by lia.
    + exists (k + 1). rewrite chunk_events_succ by done.
      repeat split; [lia..|]. f_equal. lia.
  - exists 0. rewrite Z.mul_0_r. repeat split; [lia..|].
    by rewrite state_after_start.
  - lia.
  - apply Z.ltb_ge in Hexit. assert (4 * k = n) as Hkn' by lia.
    rewrite (bind_Ok _ _ _ _ _ Hrun). eexists. split; [done|].
    apply mem_load_vec_spec in Ha as [Hla _], Hb as [Hlb _].
    unfold state_after. cbn [mem]. rewrite Hkn'.
    rewrite take_ge by (rewrite length_zip_with; lia).
    apply write_cells_read. rewrite length_zip_with. lia.
Qed.

Lemma add_vectors_multiple_of_4_witness :
  ∃ s', add_vectors 10 demo_a demo_b demo_c 8 demo_state = Ok tt s' ∧
        mem_load_vec (mem s') demo_c 8
        = Some (zip_with fadd (take 8 demo_va) (take 8 demo_vb)).
Proof.
  apply (add_vectors_multiple_of_4 10 demo_a demo_b demo_c 8
           (take 8 demo_va) (take 8 demo_vb) demo_state);
    [vm_compute; split; discriminate | reflexivity | vm_compute; reflexivity
    | vm_compute; reflexivity | reflexivity | reflexivity | reflexivity | lia].
Defined.

(** A cell that does not exist is not created by writing cells that do. *)
Lemma write_cells_None (m : memory) p l q :
  m !! q = None →
  (∀ i, 0 ≤ i < Z.of_nat (length l) → is_Some (m !! (p +ₚ i))) →
  write_cells m p l !! q = None.
Proof.
  revert m p. induction l as [|x l IH]; intros m p Hq Hl; [done|].
  simpl. apply IH.
  - rewrite lookup_insert_ne; [done|]. intros ->.
    destruct (Hl 0) as [y Hy]; [simpl; lia|].
    rewrite ptr_add_0 in Hy. congruence.
  - intros i Hi. rewrite ptr_add_add, lookup_insert_is_Some.
    destruct (decide (p = p +ₚ (1 + i))); [by left|right].
    split; [done|]. apply Hl. simpl. lia.
Qed.

(** X9. add_vectors has no loop for the remainder: when [n] is not a
    multiple of 4 its last round reads four elements from an index less than
    4 below [n], so with [a] of exactly [n] elements the call reads past the
    end of [a], which is undefined. *)
Theorem add_vectors_overruns (fuel : nat) (a b c : ptr) (n : Z)
    (va vb : list float) (s : state) :
  0 ≤ n ≤ INT_MAX → n mod 4 ≠ 0 →
  mem_load_vec (mem s) a n = Some va →
  mem_load_vec (mem s) b n = Some vb →
  allocated (mem s) c n = true →
  in_place_or_apart c a n = true → in_place_or_apart c b n = true →
  mem s !! (a +ₚ n) = None →
  (Z.to_nat n < fuel)%nat →
  add_vectors fuel a b c n s = Err Undefined.
Proof.
  intros Hn Hmod Ha Hb Hc Hca Hcb Hend Hfuel.
  destruct int_bounds as [Himax Hsmax].
  assert (sizeof_float * n ≤ SIZE_MAX) as Hsz by (unfold sizeof_float; lia).
  unfold add_vectors, bind at 1.
  rewrite (for_loop_rule_err
    (λ i s', ∃ k, 0 ≤ k ∧ i = 4 * k ∧ 4 * k ≤ n ∧
                  s' = state_after c va vb s "" (4 * k) (chunk_events 4 a b c k))
    (λ i, Z.to_nat (n - i)) _ _ _ Undefined); [done| | |lia].
  2:{ exists 0. rewrite Z.mul_0_r. repeat split; [lia..|].
      by rewrite state_after_start. }
  intros i s1 (k & Hk & -> & Hkn & ->).
  assert (4 * k < n) as Hlt.
  { destruct (decide (4 * k = n)) as [<-|]; [|lia].
    rewrite Z.mul_comm, Z.mod_mul in Hmod by lia. done. }
  split; [by apply Z.ltb_lt|].
  destruct (decide (4 * k + 4 ≤ n)) as [Hfit|Hover].
  - right. eexists. split; [|split; [|lia]].
    + rewrite add_vectors_round.
      rewrite (chunk_step_ip a b c n va vb s) by (done || lia).
      by rewrite (proj2 (Z.ltb_ge _ _)) by lia.
    + exists (k + 1). rewrite chunk_events_succ by done.
      repeat split; [lia..|]. f_equal. lia.
  - left. rewrite add_vectors_round. unfold bind at 1, vec_load at 1.
    destruct (mem_load_vec (mem (state_after _ _ _ _ _ _ _)) _ _) as [l|] eqn:Hl;
      [exfalso|done].
    apply mem_load_vec_spec in Hl as [Hlen Hl].
    destruct (lookup_lt_is_Some_2 l (Z.to_nat (n - 4 * k))) as [x Hx]; [lia|].
    apply Hl in Hx. rewrite ptr_add_add, Z2Nat.id in Hx by lia.
    replace (4 * k + (n - 4 * k)) with n in Hx by lia.
    unfold mem_load, state_after in Hx. cbn [mem] in Hx.
    rewrite write_cells_None in Hx; [done|done|].
    intros j Hj. rewrite allocated_spec in Hc. apply Hc.
    rewrite length_take in Hj. lia.
Qed.

Lemma add_vectors_overruns_witness :
  add_vectors 10 demo_a demo_b demo_c 9 demo_state = Err Undefined.
Proof.
  apply (add_vectors_overruns 10 demo_a demo_b demo_c 9 demo_va demo_vb
           demo_state);
    [vm_compute; split; discriminate | vm_compute; discriminate
    | vm_compute; reflexivity | vm_compute; reflexivity | reflexivity
    | reflexivity | reflexivity | reflexivity | lia].
Defined.

(** ** Calling add_arrays_simd again, and swapping its inputs *)

Lemma write_cells_idem (m : memory) p (l : list float) :
  write_cells (write_cells m p l) p l = write_cells m p l.
Proof.
  apply map_eq. intros q.
  destruct (decide (q.1 = p.1 ∧ p.2 ≤ q.2 < p.2 + Z.of_nat (length l)))
    as [(H1 & H2 & H3)|Hout].
  - destruct (lookup_lt_is_Some_2 l (Z.to_nat (q.2 - p.2))) as [x Hx]; [lia|].
    replace q with (p +ₚ Z.of_nat (Z.to_nat (q.2 - p.2))).
    + by rewrite !(write_cells_lookup_in _ _ _ _ x Hx).
    + destruct p, q. unfold ptr_add. simpl in *. f_equal; [done|lia].
  - rewrite !write_cells_lookup_out; [done|lia..].
Qed.

(** X10. A second call on the same arguments finds the inputs as they
    were and leaves the memory as the first call left it; it prints the line
    of the build a second time. *)
Theorem add_arrays_simd_again (cfg : build) (fuel : nat) (a b c : ptr) (n : Z)
    (va vb : list float) (s : state) :
  well_formed cfg = true →
  0 ≤ n → sizeof_float * n ≤ SIZE_MAX →
  mem_load_vec (mem s) a n = Some va →
  mem_load_vec (mem s) b n = Some vb →
  allocated (mem s) c n = true →
  separate c a n = true → separate c b n = true →
  (Z.to_nat n < fuel)%nat →
  ∃ s1 s2,
    add_arrays_simd cfg fuel a b c n s = Ok tt s1 ∧
    add_arrays_simd cfg fuel a b c n s1 = Ok tt s2 ∧
    mem s2 = mem s1 ∧
    stdout s2 = (stdout s +:+ diagnostic cfg +:+ nl) +:+ diagnostic cfg +:+ nl.
Proof.
  intros Hwf Hn Hsz Ha Hb Hc Hca Hcb Hfuel.
  pose (s1 := state_after c va vb s (diagnostic cfg +:+ nl) n
                (add_events cfg a b c n)).
  assert (mem_load_vec (mem s1) a n = Some va) as Ha1.
  { unfold s1, state_after. cbn [mem]. rewrite <- (ptr_add_0 a) at 1.
    rewrite (load_through a b c n va vb s Ha Hb a va 0 n) by (done || lia).
    apply mem_load_vec_spec in Ha as [Hla _].
    f_equal. rewrite drop_0. apply take_ge. lia. }
  assert (mem_load_vec (mem s1) b n = Some vb) as Hb1.
  { unfold s1, state_after. cbn [mem]. rewrite <- (ptr_add_0 b) at 1.
    rewrite (load_through a b c n va vb s Ha Hb b vb 0 n) by (done || lia).
    apply mem_load_vec_spec in Hb as [Hlb _].
    f_equal. rewrite drop_0. apply take_ge. lia. }
  assert (allocated (mem s1) c n = true) as Hc1.
  { unfold s1, state_after. cbn [mem]. rewrite <- (ptr_add_0 c) at 2.
    apply (alloc_through c n s Hc); lia. }
  exists s1. eexists. split; [|split; [|split]].
  - by apply (add_arrays_simd_spec a b c n va vb s).
  - by apply (add_arrays_simd_spec a b c n va vb s1).
  - unfold s1, state_after. cbn [mem]. apply write_cells_idem.
  - done.
Qed.

Lemma add_arrays_simd_again_witness :
  ∃ s1 s2,
    add_arrays_simd SSE2_build 10 demo_a demo_b demo_c 9 demo_state = Ok tt s1 ∧
    add_arrays_simd SSE2_build 10 demo_a demo_b demo_c 9 s1 = Ok tt s2 ∧
    mem s2 = mem s1 ∧
    stdout s2 = (stdout demo_state +:+ diagnostic SSE2_build +:+ nl)
                +:+ diagnostic SSE2_build +:+ nl.
Proof.
  apply (add_arrays_simd_again SSE2_build 10 demo_a demo_b demo_c 9
           demo_va demo_vb demo_state);
    [reflexivity | lia | vm_compute; discriminate | vm_compute; reflexivity
    | vm_compute; reflexivity | reflexivity | reflexivity | reflexivity | lia].
Defined.

(** Binary32 addition is commutative, signed zeros and infinities
    included, as long as the operands are not both NaN: of two NaNs the
    processor returns the first, which [float], with its single NaN, does
    not tell apart from the second. *)
Lemma fadd_comm (x y : float) :
  is_nan x && is_nan y = false → fadd x y = fadd y x.
Proof.
  unfold fadd, SFadd.
  destruct x as [[]|[]| |sx mx ex], y as [[]|[]| |sy my ey];
    try reflexivity; try discriminate.
  intros _. by rewrite Z.min_comm, Z.add_comm.
Qed.

(** X11. The two inputs may be swapped: add_arrays_simd(b, a, c, n) leaves
    the same value as add_arrays_simd(a, b, c, n) in every [c[i]] whose two
    inputs are not both NaN, and the same contents in every cell outside
    [c], in every build. *)
Theorem add_arrays_simd_swap (cfg : build) (fuel : nat) (a b c : ptr) (n : Z)
    (va vb : list float) (s : state) :
  well_formed cfg = true →
  0 ≤ n → sizeof_float * n ≤ SIZE_MAX →
  mem_load_vec (mem s) a n = Some va →
  mem_load_vec (mem s) b n = Some vb →
  allocated (mem s) c n = true →
  in_place_or_apart c a n = true → in_place_or_apart c b n = true →
  (Z.to_nat n < fuel)%nat →
  ∃ s1 s2,
    add_arrays_simd cfg fuel a b c n s = Ok tt s1 ∧
    add_arrays_simd cfg fuel b a c n s = Ok tt s2 ∧
    (∀ i x y, 0 ≤ i < n →
       va !! Z.to_nat i = Some x → vb !! Z.to_nat i = Some y →
       is_nan x && is_nan y = false →
       mem_load (mem s1) (c +ₚ i) = Some (fadd x y) ∧
       mem_load (mem s2) (c +ₚ i) = Some (fadd x y)) ∧
    (∀ q : ptr, in_range c n 1 q = false → mem s1 !! q = mem s2 !! q).
Proof.
  intros Hwf Hn Hsz Ha Hb Hc Hca Hcb Hfuel. do 2 eexists.
  split; [|split; [|split]].
  - by apply (add_arrays_simd_spec_ip a b c n va vb s).
  - by apply (add_arrays_simd_spec_ip b a c n vb va s).
  - intros i x y Hi Hx Hy Hnan.
    apply mem_load_vec_spec in Ha as [Hla _], Hb as [Hlb _]. split.
    + by apply output_cell.
    + rewrite (fadd_comm x y Hnan). by apply output_cell.
  - intros q Hq. unfold state_after. cbn [mem].
    assert (q.1 ≠ c.1 ∨ q.2 < c.2 ∨ c.2 + n ≤ q.2) as Hout.
    { unfold in_range in Hq. rewrite !andb_false_iff in Hq.
      rewrite bool_decide_eq_false, !Z.leb_gt in Hq. lia. }
    rewrite !write_cells_lookup_out; [done|..];
      match goal with
      | |- context [take ?k ?l] => pose proof (length_take l k); lia
      end.
Qed.

Lemma add_arrays_simd_swap_witness :
  ∃ s1 s2,
    add_arrays_simd AVX_build 10 demo_a demo_b demo_c 9 demo_state = Ok tt s1 ∧
    add_arrays_simd AVX_build 10 demo_b demo_a demo_c 9 demo_state = Ok tt s2 ∧
    (∀ i x y, 0 ≤ i < 9 →
       demo_va !! Z.to_nat i = Some x → demo_vb !! Z.to_nat i = Some y →
       is_nan x && is_nan y = false →
       mem_load (mem s1) (demo_c +ₚ i) = Some (fadd x y) ∧
       mem_load (mem s2) (demo_c +ₚ i) = Some (fadd x y)) ∧
    (∀ q : ptr, in_range demo_c 9 1 q = false → mem s1 !! q = mem s2 !! q).
Proof.
  apply (add_arrays_simd_swap AVX_build 10 demo_a demo_b demo_c 9
           demo_va demo_vb demo_state);
    [reflexivity | lia | vm_compute; discriminate | vm_compute; reflexivity
    | vm_compute; reflexivity | reflexivity | reflexivity | reflexivity | lia].
Defined.
